(** * Verification of the model lifecycle and streaming chat logic of
    MyAndroidLLM ([App.tsx]).

    Strings of the TypeScript source are modelled as Stdlib [string]
    (8-bit characters); the JavaScript string methods the source uses
    ([includes], [replace] with a string pattern, [trim], and the regular
    expression replace [/<think>.*?<\/think>/gs]) are written out below. *)

From Stdlib Require Import String Ascii List Bool Arith Lia ZArith.
From Stdlib Require Import DecimalString DecimalN.
Import ListNotations.
Open Scope string_scope.

(* ------------------------------------------------------------------ *)
(** ** JavaScript string primitives *)

Module JSString.

(** [starts_with p s]: [s] begins with [p]. *)
Fixpoint starts_with (p s : string) : bool :=
  match p, s with
  | EmptyString, _ => true
  | String a p', String b s' => Ascii.eqb a b && starts_with p' s'
  | String _ _, EmptyString => false
  end.

(** [s.includes(p)] *)
Fixpoint includes (s p : string) : bool :=
  starts_with p s ||
  match s with
  | EmptyString => false
  | String _ s' => includes s' p
  end.

Fixpoint drop (n : nat) (s : string) : string :=
  match n, s with
  | O, _ => s
  | S n', String _ s' => drop n' s'
  | S _, EmptyString => EmptyString
  end.

(** [s.replace(p, r)] with a string pattern: only the first occurrence
    is replaced; without an occurrence [s] is returned unchanged. *)
Fixpoint replace (s p r : string) : string :=
  if starts_with p s then r ++ drop (String.length p) s
  else match s with
       | EmptyString => EmptyString
       | String c s' => String c (replace s' p r)
       end.

(** White space removed by [String.prototype.trim] (its ASCII members:
    tab, line feed, vertical tab, form feed, carriage return, space). *)
Definition is_ws (c : ascii) : bool :=
  let n := nat_of_ascii c in
  ((9 <=? n) && (n <=? 13) || (n =? 32))%nat.

Fixpoint trim_start (s : string) : string :=
  match s with
  | EmptyString => EmptyString
  | String c s' => if is_ws c then trim_start s' else s
  end.

Fixpoint trim_end (s : string) : string :=
  match s with
  | EmptyString => EmptyString
  | String c s' =>
      let t := trim_end s' in
      match t with
      | EmptyString => if is_ws c then EmptyString else String c EmptyString
      | _ => String c t
      end
  end.

Definition trim (s : string) : string := trim_end (trim_start s).

Definition OPEN : string := "<think>".
Definition CLOSE : string := "</think>".

(** Non-greedy search used by [.*?<\/think>]: the text after the first
    closing marker, if any. *)
Fixpoint after_close (s : string) : option string :=
  if starts_with CLOSE s then Some (drop (String.length CLOSE) s)
  else match s with
       | EmptyString => None
       | String _ s' => after_close s'
       end.

(** [s.replace(/<think>.*?<\/think>/gs, "")]: scanning left to right, at
    each position an opening marker followed (anywhere later, [.] matches
    newlines under the [s] flag) by a closing marker forms a match, which is
    removed; the scan resumes after the match. Otherwise one character is
    kept. [fuel] bounds the scan; [strip_think] gives it the length of the
    input, which suffices since every step consumes a character. *)
Fixpoint strip_think_fuel (fuel : nat) (s : string) : string :=
  match fuel with
  | O => s
  | S fuel' =>
      match s with
      | EmptyString => EmptyString
      | String c s' =>
          if starts_with OPEN s then
            match after_close (drop (String.length OPEN) s) with
            | Some rest => strip_think_fuel fuel' rest
            | None => String c (strip_think_fuel fuel' s')
            end
          else String c (strip_think_fuel fuel' s')
      end
  end.

Definition strip_think (s : string) : string :=
  strip_think_fuel (String.length s) s.

End JSString.

Import JSString.

(* ------------------------------------------------------------------ *)
(** ** Conversation data *)

Inductive Role := RSystem | RUser | RAssistant.

Definition role_eqb (a b : Role) : bool :=
  match a, b with
  | RSystem, RSystem | RUser, RUser | RAssistant, RAssistant => true
  | _, _ => false
  end.

(** [type Message] *)
Record Message := mkMessage {
  role : Role;
  content : string;
  thought : option string;
  showThought : bool
}.

Definition INITIAL_CONVERSATION : list Message :=
  [mkMessage RSystem
     "This is a conversation between user and assistant, a friendly chatbot."
     None false].

(** The placeholder appended before the completion starts. *)
Definition assistant_placeholder : Message :=
  mkMessage RAssistant "" None false.

Definition set_content (c : string) (m : Message) : Message :=
  mkMessage (role m) c (thought m) (showThought m).

Definition set_content_thought (c : string) (t : string) (m : Message) : Message :=
  mkMessage (role m) c (Some t) (showThought m).

(** [updated[lastIndex] = f(updated[lastIndex])] with
    [lastIndex = prev.length - 1]. The conversation always holds the system
    turn, so the empty case is not reached; it is left unchanged. *)
Fixpoint update_last (f : Message -> Message) (l : list Message) : list Message :=
  match l with
  | [] => []
  | [m] => [f m]
  | m :: l' => m :: update_last f l'
  end.

(* ------------------------------------------------------------------ *)
(** ** The token callback of [handleSendMessage] *)

(** The closure variables of one completion call. *)
Record Locals := mkLocals {
  currentAssistantMessage : string;
  currentThought : string;
  inThinkBlock : bool
}.

Definition init_locals : Locals := mkLocals "" "" false.

(** One call of the [context.completion] token callback, with the two
    [setConversation] updaters applied in order. *)
Definition on_token (token : string) (st : Locals * list Message)
  : Locals * list Message :=
  let '(l, conv) := st in
  let cam := currentAssistantMessage l ++ token in
  let '(ct, itb, conv1) :=
    if includes token OPEN then (replace token OPEN "", true, conv)
    else if includes token CLOSE then
      let finalThought := trim (replace (currentThought l) CLOSE "") in
      ("", false,
       update_last
         (fun m => set_content_thought
                     (replace (content m) (OPEN ++ finalThought ++ CLOSE) "")
                     finalThought m) conv)
    else if inThinkBlock l then (currentThought l ++ token, true, conv)
    else (currentThought l, inThinkBlock l, conv) in
  let visibleContent := trim (strip_think cam) in
  (mkLocals cam ct itb, update_last (set_content visibleContent) conv1).

Definition stream (tokens : list string) (st : Locals * list Message)
  : Locals * list Message :=
  fold_left (fun s t => on_token t s) tokens st.

(** The completion of one user message over the log [conv]: the user turn
    and the empty assistant placeholder are appended, then the tokens are
    delivered. *)
Definition complete (conv : list Message) (input : string) (tokens : list string)
  : Locals * list Message :=
  stream tokens (init_locals,
                 (conv ++ [mkMessage RUser input None false; assistant_placeholder])%list).

Definition last_turn (conv : list Message) : option Message :=
  last (map Some conv) None.

Definition example_tokens : list string :=
  ["Hello "; "<thi"; "nk>planning</thin"; "k> world"].

Example example_run :
  last_turn (snd (complete INITIAL_CONVERSATION "hi" example_tokens))
  = Some (mkMessage RAssistant "Hello  world" None false).
Proof. vm_compute. reflexivity. Qed.

Fixpoint concat_all (l : list string) : string :=
  match l with
  | [] => ""
  | s :: l' => s ++ concat_all l'
  end.

(* ------------------------------------------------------------------ *)
(** ** Facts about the string primitives *)

Module JSStringFacts.

Lemma append_empty_r : forall s, s ++ "" = s.
Proof. induction s; simpl; congruence. Qed.

Lemma append_assoc : forall a b c : string, (a ++ b) ++ c = a ++ (b ++ c).
Proof. induction a; intros; simpl; congruence. Qed.

Lemma append_length : forall a b, String.length (a ++ b) = String.length a + String.length b.
Proof. induction a; intros; simpl; auto. Qed.

Lemma starts_with_self : forall p X, starts_with p (p ++ X) = true.
Proof. induction p; intros; simpl; [reflexivity|]. rewrite Ascii.eqb_refl. apply IHp. Qed.

Lemma drop_app : forall p X, drop (String.length p) (p ++ X) = X.
Proof. induction p; intros; simpl; auto. Qed.

Lemma drop_length : forall k s, String.length (drop k s) <= String.length s.
Proof. induction k; destruct s; simpl; try lia. specialize (IHk s). lia. Qed.

Lemma includes_of_starts : forall p s, starts_with p s = true -> includes s p = true.
Proof. intros p s H. destruct s; simpl; rewrite H; reflexivity. Qed.

Lemma includes_cons : forall c s p,
  includes (String c s) p = false -> starts_with p (String c s) = false /\ includes s p = false.
Proof. intros c s p H. simpl in H. apply orb_false_iff in H. exact H. Qed.

Lemma includes_cons_eq : forall c s p,
  includes (String c s) p = starts_with p (String c s) || includes s p.
Proof. reflexivity. Qed.

Lemma includes_app_r : forall s t p, includes (s ++ t) p = false -> includes t p = false.
Proof.
  induction s; intros t p H; [exact H|].
  change (String a s ++ t) with (String a (s ++ t)) in H.
  apply includes_cons in H. apply IHs. apply H.
Qed.

Lemma starts_with_app_l : forall p s t,
  starts_with p s = true -> starts_with p (s ++ t) = true.
Proof.
  induction p; intros s t H; [reflexivity|].
  destruct s as [|b s]; [discriminate|].
  simpl in *. apply andb_true_iff in H. destruct H as [H1 H2].
  rewrite H1. simpl. apply IHp. exact H2.
Qed.

Lemma includes_app_l : forall s t p, includes (s ++ t) p = false -> includes s p = false.
Proof.
  induction s; intros t p H.
  - destruct p; [|reflexivity].
    destruct t; simpl in H; discriminate.
  - change (String a s ++ t) with (String a (s ++ t)) in H.
    apply includes_cons in H. destruct H as [H1 H2].
    rewrite includes_cons_eq. rewrite (IHs t p H2), orb_false_r.
    destruct (starts_with p (String a s)) eqn:E; [|reflexivity].
    apply (starts_with_app_l _ _ t) in E. simpl in E. congruence.
Qed.

Lemma includes_drop : forall k s p, includes s p = false -> includes (drop k s) p = false.
Proof.
  induction k; intros s p H; simpl; [exact H|].
  destruct s; [exact H|]. apply IHk. apply (includes_cons _ _ _ H).
Qed.

(** A prefix match across an append either lies in the left part or
    starts inside it and runs on into the right part. *)
Lemma starts_with_app : forall s p t,
  starts_with p (s ++ t) = true ->
  starts_with p s = true \/
  (String.length s < String.length p /\ starts_with (drop (String.length s) p) t = true).
Proof.
  induction s; intros p t H.
  - destruct p; simpl in *; [left; reflexivity | right; split; [lia | exact H]].
  - destruct p as [|b p]; simpl in *; [left; reflexivity|].
    apply andb_true_iff in H. destruct H as [Hb H].
    rewrite Hb. simpl. destruct (IHs p t H) as [H1 | [H1 H2]].
    + left; exact H1.
    + right; split; [lia | exact H2].
Qed.

(** A marker none of whose proper suffixes is a prefix of the marker
    followed by anything; true of both think markers since [<] opens them
    and appears nowhere else in them. *)
Definition border_free (m : string) : Prop :=
  forall k X, 1 <= k < String.length m -> starts_with (drop k m) (m ++ X) = false.

Lemma OPEN_border_free : border_free OPEN.
Proof.
  intros k X H. unfold OPEN in *; simpl in H.
  destruct k as [|[|[|[|[|[|[|k]]]]]]]; try lia; reflexivity.
Qed.

Lemma CLOSE_border_free : border_free CLOSE.
Proof.
  intros k X H. unfold CLOSE in *; simpl in H.
  destruct k as [|[|[|[|[|[|[|[|k]]]]]]]]; try lia; reflexivity.
Qed.

Lemma no_early_match : forall m pre X,
  border_free m -> pre <> "" -> includes pre m = false ->
  starts_with m (pre ++ m ++ X) = false.
Proof.
  intros m pre X Hb Hne Hinc.
  destruct (starts_with m (pre ++ m ++ X)) eqn:E; [|reflexivity].
  apply starts_with_app in E. destruct E as [E | [E1 E2]].
  - apply includes_of_starts in E. congruence.
  - rewrite Hb in E2; [discriminate|]. destruct pre; [congruence|]. simpl in *. lia.
Qed.

Lemma replace_absent : forall s p r, p <> "" -> includes s p = false -> replace s p r = s.
Proof.
  induction s; intros p r Hp H.
  - destruct p; [congruence|]. reflexivity.
  - apply includes_cons in H. destruct H as [H1 H2]. simpl. rewrite H1.
    f_equal. apply IHs; assumption.
Qed.

Lemma after_close_cons : forall c s,
  after_close (String c s) =
  if starts_with CLOSE (String c s) then Some (drop (String.length CLOSE) (String c s))
  else after_close s.
Proof. reflexivity. Qed.

Lemma after_close_start : forall s,
  starts_with CLOSE s = true -> after_close s = Some (drop (String.length CLOSE) s).
Proof.
  intros [|c s] H; [discriminate|]. rewrite after_close_cons, H. reflexivity.
Qed.

Lemma after_close_length : forall s r, after_close s = Some r -> String.length r <= String.length s.
Proof.
  induction s; intros r H; [discriminate|].
  rewrite after_close_cons in H.
  destruct (starts_with CLOSE (String a s)).
  - inversion H as [E]. apply (drop_length (String.length CLOSE) (String a s)).
  - apply IHs in H. simpl. lia.
Qed.

Lemma after_close_absent : forall s, includes s CLOSE = false -> after_close s = None.
Proof.
  induction s; intros H; [reflexivity|].
  apply includes_cons in H. destruct H as [H1 H2]. rewrite after_close_cons, H1. auto.
Qed.

Lemma after_close_first : forall mid X,
  includes mid CLOSE = false -> after_close (mid ++ CLOSE ++ X) = Some X.
Proof.
  induction mid; intros X H.
  - change (EmptyString ++ CLOSE ++ X) with (CLOSE ++ X). rewrite after_close_start by apply starts_with_self.
    f_equal.
  - assert (Hs := no_early_match CLOSE (String a mid) X CLOSE_border_free
                    ltac:(discriminate) H).
    apply includes_cons in H. destruct H as [_ H].
    change (String a mid ++ CLOSE ++ X) with (String a (mid ++ CLOSE ++ X)) in Hs |- *.
    rewrite after_close_cons, Hs. apply IHmid. exact H.
Qed.

Lemma drop_open_length : forall c s,
  String.length (drop (String.length OPEN) (String c s)) <= String.length s.
Proof. intros c s. exact (drop_length 6 s). Qed.

Lemma strip_fuel_enough : forall n s,
  String.length s <= n -> strip_think_fuel n s = strip_think_fuel (S n) s.
Proof.
  induction n; intros s H.
  - destruct s; [reflexivity | simpl in H; lia].
  - destruct s as [|c s']; [reflexivity|].
    cbn [strip_think_fuel].
    destruct (starts_with OPEN (String c s')).
    + destruct (after_close (drop (String.length OPEN) (String c s'))) eqn:E.
      * apply IHn. apply after_close_length in E.
        pose proof (drop_open_length c s'). simpl in H. lia.
      * f_equal. apply IHn. simpl in H. lia.
    + f_equal. apply IHn. simpl in H. lia.
Qed.

Lemma strip_fuel_stable : forall k n s,
  String.length s <= n -> strip_think_fuel n s = strip_think_fuel (k + n) s.
Proof.
  induction k; intros n s H; [reflexivity|].
  rewrite (IHk n s H). replace (S k + n) with (S (k + n)) by lia.
  apply strip_fuel_enough. lia.
Qed.

Lemma strip_fuel_length : forall n s,
  String.length s <= n -> strip_think_fuel n s = strip_think s.
Proof.
  intros n s H. unfold strip_think.
  replace n with ((n - String.length s) + String.length s) by lia.
  symmetry. apply strip_fuel_stable. lia.
Qed.

(** The unfolding equation of [strip_think]. *)
Lemma strip_think_cons : forall c s,
  strip_think (String c s) =
  if starts_with OPEN (String c s) then
    match after_close (drop (String.length OPEN) (String c s)) with
    | Some rest => strip_think rest
    | None => String c (strip_think s)
    end
  else String c (strip_think s).
Proof.
  intros c s. unfold strip_think at 1. cbn [String.length strip_think_fuel].
  destruct (starts_with OPEN (String c s)).
  - destruct (after_close (drop (String.length OPEN) (String c s))) eqn:E.
    + apply strip_fuel_length. apply after_close_length in E.
      pose proof (drop_open_length c s). lia.
    + reflexivity.
  - reflexivity.
Qed.

Lemma strip_think_no_open : forall s, includes s OPEN = false -> strip_think s = s.
Proof.
  induction s; intros H; [reflexivity|].
  rewrite strip_think_cons. apply includes_cons in H. destruct H as [H1 H2].
  rewrite H1. f_equal. auto.
Qed.

Lemma strip_think_no_close : forall s, includes s CLOSE = false -> strip_think s = s.
Proof.
  induction s; intros H; [reflexivity|].
  rewrite strip_think_cons.
  rewrite (after_close_absent _ (includes_drop _ _ _ H)).
  apply includes_cons in H. destruct H as [_ H2].
  destruct (starts_with OPEN (String a s)); f_equal; auto.
Qed.

(** The first completed pair is removed, and the scan resumes after it. *)
Lemma strip_think_pair : forall pre mid post,
  includes pre OPEN = false -> includes mid CLOSE = false ->
  strip_think (pre ++ OPEN ++ mid ++ CLOSE ++ post) = pre ++ strip_think post.
Proof.
  induction pre; intros mid post Hpre Hmid.
  - set (X := mid ++ CLOSE ++ post).
    change (EmptyString ++ OPEN ++ X) with (String "<" ("think>" ++ X)).
    rewrite strip_think_cons.
    replace (starts_with OPEN (String "<" ("think>" ++ X))) with true
      by (symmetry; exact (starts_with_self OPEN X)).
    replace (drop (String.length OPEN) (String "<" ("think>" ++ X))) with X
      by (symmetry; exact (drop_app OPEN X)).
    unfold X. rewrite after_close_first by exact Hmid. reflexivity.
  - assert (Hs := no_early_match OPEN (String a pre) (mid ++ CLOSE ++ post)
                    OPEN_border_free ltac:(discriminate) Hpre).
    simpl (String a pre ++ _) in Hs |- *. rewrite strip_think_cons. rewrite Hs.
    apply includes_cons in Hpre. destruct Hpre as [_ Hpre].
    f_equal. apply IHpre; assumption.
Qed.

(** An opening marker with no closing marker after it is kept, with all
    that follows it. *)
Lemma strip_think_unclosed : forall pre rest,
  includes pre OPEN = false -> includes rest CLOSE = false ->
  strip_think (pre ++ OPEN ++ rest) = pre ++ OPEN ++ rest.
Proof.
  induction pre; intros rest Hpre Hrest.
  - apply strip_think_no_close. unfold OPEN. simpl. exact Hrest.
  - assert (Hs := no_early_match OPEN (String a pre) rest
                    OPEN_border_free ltac:(discriminate) Hpre).
    simpl (String a pre ++ _) in Hs |- *. rewrite strip_think_cons. rewrite Hs.
    apply includes_cons in Hpre. destruct Hpre as [_ Hpre].
    f_equal. apply IHpre; assumption.
Qed.

End JSStringFacts.

(* ------------------------------------------------------------------ *)
(** ** Facts about the token callback *)

Module StreamFacts.
Import JSStringFacts.
Local Open Scope list_scope.

Lemma update_last_app : forall f l m, update_last f (l ++ [m]) = l ++ [f m].
Proof.
  intros f l m. induction l as [|a l IH]; [reflexivity|].
  destruct l as [|b l]; [reflexivity|].
  simpl in *. f_equal. exact IH.
Qed.

Lemma last_turn_app : forall pre m, last_turn (pre ++ [m]) = Some m.
Proof.
  intros pre m. unfold last_turn. rewrite map_app. simpl.
  induction (map Some pre) as [|x l IH]; [reflexivity|].
  simpl. rewrite IH. destruct l; reflexivity.
Qed.

(** A fragment holding neither marker. *)
Definition plain (t : string) : Prop :=
  includes t OPEN = false /\ includes t CLOSE = false.

Lemma on_token_shape : forall t l pre m,
  exists l' m',
    on_token t (l, pre ++ [m]) = (l', pre ++ [m']) /\
    currentAssistantMessage l' = (currentAssistantMessage l ++ t)%string /\
    content m' = trim (strip_think (currentAssistantMessage l ++ t)) /\
    role m' = role m /\
    (includes t CLOSE = false -> thought m' = thought m).
Proof.
  intros t l pre m. unfold on_token.
  destruct (includes t OPEN) eqn:Ho; [|destruct (includes t CLOSE) eqn:Hc;
                                        [|destruct (inThinkBlock l)]];
    rewrite ?update_last_app; eexists _, _;
    (split; [reflexivity|]); simpl; repeat split; auto; congruence.
Qed.

Lemma on_token_plain : forall t l pre m, plain t ->
  on_token t (l, pre ++ [m]) =
  (mkLocals (currentAssistantMessage l ++ t)%string
            (if inThinkBlock l then (currentThought l ++ t)%string else currentThought l)
            (inThinkBlock l),
   pre ++ [set_content (trim (strip_think (currentAssistantMessage l ++ t))) m]).
Proof.
  intros t l pre m [Ho Hc]. unfold on_token. rewrite Ho, Hc.
  destruct (inThinkBlock l); rewrite update_last_app; reflexivity.
Qed.

Lemma on_token_open : forall l pre m,
  on_token OPEN (l, pre ++ [m]) =
  (mkLocals (currentAssistantMessage l ++ OPEN)%string "" true,
   pre ++ [set_content (trim (strip_think (currentAssistantMessage l ++ OPEN))) m]).
Proof.
  intros l pre m. unfold on_token.
  change (includes OPEN OPEN) with true. change (replace OPEN OPEN "") with "".
  cbv beta iota. rewrite update_last_app. reflexivity.
Qed.

Lemma on_token_close : forall l pre m,
  on_token CLOSE (l, pre ++ [m]) =
  (mkLocals (currentAssistantMessage l ++ CLOSE)%string "" false,
   pre ++ [set_content (trim (strip_think (currentAssistantMessage l ++ CLOSE)))
             (set_content_thought
                (replace (content m)
                   (OPEN ++ trim (replace (currentThought l) CLOSE "") ++ CLOSE)%string "")
                (trim (replace (currentThought l) CLOSE "")) m)]).
Proof.
  intros l pre m. unfold on_token.
  change (includes CLOSE OPEN) with false. change (includes CLOSE CLOSE) with true.
  cbv beta iota. rewrite !update_last_app. reflexivity.
Qed.

Lemma stream_cons : forall t ts st, stream (t :: ts) st = stream ts (on_token t st).
Proof. reflexivity. Qed.

Lemma stream_nil : forall st, stream [] st = st.
Proof. reflexivity. Qed.

Lemma stream_app : forall ts us st, stream (ts ++ us) st = stream us (stream ts st).
Proof. intros. unfold stream. apply fold_left_app. Qed.

Lemma stream_shape : forall tokens l pre m,
  exists l' m',
    stream tokens (l, pre ++ [m]) = (l', pre ++ [m']) /\
    currentAssistantMessage l' = (currentAssistantMessage l ++ concat_all tokens)%string /\
    (tokens <> [] -> content m' = trim (strip_think (currentAssistantMessage l'))) /\
    role m' = role m /\
    ((forall t, In t tokens -> includes t CLOSE = false) -> thought m' = thought m).
Proof.
  induction tokens as [|t ts IH]; intros l pre m.
  - exists l, m. simpl. rewrite append_empty_r. repeat split; congruence.
  - destruct (on_token_shape t l pre m) as (l1 & m1 & E1 & Hc1 & Hv1 & Hr1 & Ht1).
    destruct (IH l1 pre m1) as (l2 & m2 & E2 & Hc2 & Hv2 & Hr2 & Ht2).
    exists l2, m2. rewrite stream_cons, E1, E2. repeat split.
    + rewrite Hc2, Hc1. simpl. apply append_assoc.
    + intros _. destruct ts as [|u us].
      * simpl in E2. injection E2 as <- Em. apply app_inv_head in Em.
        injection Em as <-. rewrite Hv1, Hc1. reflexivity.
      * apply Hv2. discriminate.
    + congruence.
    + intros Hall. rewrite Ht2, Ht1; auto. apply Hall. left; reflexivity.
      intros u Hu. apply Hall. right; exact Hu.
Qed.

Lemma complete_shape : forall conv input tokens,
  exists l' m',
    snd (complete conv input tokens) =
      conv ++ [mkMessage RUser input None false; m'] /\
    currentAssistantMessage l' = concat_all tokens /\
    (tokens <> [] -> content m' = trim (strip_think (concat_all tokens))) /\
    (tokens = [] -> content m' = "") /\
    role m' = RAssistant /\
    ((forall t, In t tokens -> includes t CLOSE = false) -> thought m' = None).
Proof.
  intros conv input tokens. unfold complete.
  replace (conv ++ [mkMessage RUser input None false; assistant_placeholder])%list
    with ((conv ++ [mkMessage RUser input None false]) ++ [assistant_placeholder])%list
    by (rewrite <- app_assoc; reflexivity).
  destruct (stream_shape tokens init_locals (conv ++ [mkMessage RUser input None false])
              assistant_placeholder) as (l' & m' & E & Hc & Hv & Hr & Ht).
  exists l', m'. rewrite E. simpl in Hc. repeat split.
  - rewrite <- app_assoc. reflexivity.
  - exact Hc.
  - intros Hne. rewrite Hv by exact Hne. rewrite Hc. reflexivity.
  - intros ->. simpl in E. injection E as _ Em. apply app_inv_head in Em.
    injection Em as <-. reflexivity.
  - exact Hr.
  - exact Ht.
Qed.

Lemma includes_concat_in : forall tokens t p,
  includes (concat_all tokens) p = false -> In t tokens -> includes t p = false.
Proof.
  induction tokens as [|u us IH]; intros t p H Hin; [destruct Hin|].
  simpl in H. destruct Hin as [<- | Hin].
  - apply (includes_app_l _ _ _ H).
  - apply (IH t p); [apply (includes_app_r _ _ _ H) | exact Hin].
Qed.

End StreamFacts.

Module StreamFacts2.
Import JSStringFacts StreamFacts.
Local Open Scope list_scope.

Lemma stream_plain : forall ts l pre m, Forall plain ts ->
  exists m',
    stream ts (l, pre ++ [m]) =
      (mkLocals (currentAssistantMessage l ++ concat_all ts)%string
                (if inThinkBlock l then (currentThought l ++ concat_all ts)%string
                 else currentThought l)
                (inThinkBlock l),
       pre ++ [m']) /\
    thought m' = thought m /\ role m' = role m.
Proof.
  induction ts as [|t ts IH]; intros l pre m Hall.
  - exists m. destruct l as [a b c]. simpl. rewrite !append_empty_r. destruct c; auto.
  - inversion Hall as [|? ? Ht Hts]; subst.
    rewrite stream_cons, on_token_plain by exact Ht.
    destruct (IH (mkLocals (currentAssistantMessage l ++ t)%string
                   (if inThinkBlock l then (currentThought l ++ t)%string else currentThought l)
                   (inThinkBlock l))
                 pre (set_content (trim (strip_think (currentAssistantMessage l ++ t))) m) Hts)
      as (m' & E & Hth & Hr).
    exists m'. split; [|split; assumption]. rewrite E.
    destruct (inThinkBlock l); simpl; rewrite !append_assoc; reflexivity.
Qed.

(** With each marker delivered as a fragment of its own, the text of the
    fragments between them becomes the reasoning. *)
Lemma complete_whole_markers : forall conv input P M Q,
  Forall plain P -> Forall plain M -> Forall plain Q ->
  includes (concat_all M) CLOSE = false ->
  exists m, last_turn (snd (complete conv input (P ++ [OPEN] ++ M ++ [CLOSE] ++ Q))) = Some m /\
            thought m = Some (trim (concat_all M)).
Proof.
  intros conv input P M Q HP HM HQ Hcl. unfold complete.
  replace (conv ++ [mkMessage RUser input None false; assistant_placeholder])
    with ((conv ++ [mkMessage RUser input None false]) ++ [assistant_placeholder])
    by (rewrite <- app_assoc; reflexivity).
  set (pre := conv ++ [mkMessage RUser input None false]).
  rewrite !stream_app.
  destruct (stream_plain P init_locals pre assistant_placeholder HP) as (m1 & E1 & T1 & _).
  rewrite E1. rewrite (stream_cons OPEN []), on_token_open, stream_nil.
  match goal with |- context [stream M (?l, pre ++ [?m])] =>
    destruct (stream_plain M l pre m HM) as (m2 & E2 & T2 & _) end.
  rewrite E2. rewrite (stream_cons CLOSE []), on_token_close, stream_nil.
  match goal with |- context [stream Q (?l, pre ++ [?m])] =>
    destruct (stream_plain Q l pre m HQ) as (m3 & E3 & T3 & _) end.
  rewrite E3. exists m3. split; [apply last_turn_app|].
  rewrite T3. simpl. f_equal. f_equal.
  apply replace_absent; [discriminate | exact Hcl].
Qed.

End StreamFacts2.

(* ------------------------------------------------------------------ *)
(** ** Claims about the reasoning markers *)

Import JSStringFacts StreamFacts StreamFacts2.

(** C1 (corrected). After a non-empty list of fragments the visible
    content is the trimmed concatenation of all fragments with every
    completed [<think>...</think>] span removed, however the markers are
    split across fragments: [strip_think] keeps text without an opening
    marker, removes the first opening marker up to the first closing marker
    after it and goes on after that, and keeps an opening marker that no
    closing marker follows. So for a single complete pair the visible
    content holds neither the markers nor the enclosed text. The reasoning
    field is set only by a fragment that itself contains the whole closing
    marker: when no fragment does, it stays unset; when each marker arrives
    as a fragment of its own, it is the trimmed text between them. The
    spec's example yields visible content "Hello  world" and no reasoning. *)
Theorem C1_visible_strip_and_reasoning :
  (forall conv input tokens,
     tokens <> [] ->
     exists m, last_turn (snd (complete conv input tokens)) = Some m /\
               role m = RAssistant /\ content m = trim (strip_think (concat_all tokens))) /\
  (forall s, includes s OPEN = false -> strip_think s = s) /\
  (forall pre mid post,
     includes pre OPEN = false -> includes mid CLOSE = false ->
     strip_think (pre ++ OPEN ++ mid ++ CLOSE ++ post) = pre ++ strip_think post) /\
  (forall pre rest,
     includes pre OPEN = false -> includes rest CLOSE = false ->
     strip_think (pre ++ OPEN ++ rest) = pre ++ OPEN ++ rest) /\
  (forall conv input tokens pre mid post,
     tokens <> [] ->
     concat_all tokens = pre ++ OPEN ++ mid ++ CLOSE ++ post ->
     includes pre OPEN = false -> includes mid CLOSE = false ->
     includes post OPEN = false ->
     exists m, last_turn (snd (complete conv input tokens)) = Some m /\
               role m = RAssistant /\ content m = trim (pre ++ post)) /\
  (forall conv input tokens,
     (forall t, In t tokens -> includes t CLOSE = false) ->
     exists m, last_turn (snd (complete conv input tokens)) = Some m /\
               thought m = None) /\
  (forall conv input P M Q,
     Forall plain P -> Forall plain M -> Forall plain Q ->
     includes (concat_all M) CLOSE = false ->
     exists m, last_turn (snd (complete conv input
                                 (P ++ [OPEN] ++ M ++ [CLOSE] ++ Q)%list)) = Some m /\
               thought m = Some (trim (concat_all M))) /\
  last_turn (snd (complete INITIAL_CONVERSATION "hi" example_tokens))
    = Some (mkMessage RAssistant "Hello  world" None false).
Proof.
  assert (Last : forall conv input m,
            last_turn (conv ++ [mkMessage RUser input None false; m])%list = Some m).
  { intros conv input m.
    replace (conv ++ [mkMessage RUser input None false; m])%list
      with ((conv ++ [mkMessage RUser input None false]) ++ [m])%list
      by (rewrite <- app_assoc; reflexivity).
    apply last_turn_app. }
  assert (Visible : forall conv input tokens,
            tokens <> [] ->
            exists m, last_turn (snd (complete conv input tokens)) = Some m /\
                      role m = RAssistant /\
                      content m = trim (strip_think (concat_all tokens))).
  { intros conv input tokens Hne.
    destruct (complete_shape conv input tokens) as (l & m & E & _ & Hv & _ & Hr & _).
    exists m. rewrite E. split; [apply Last|]. split; [exact Hr|]. apply Hv. exact Hne. }
  split; [exact Visible|].
  split; [exact strip_think_no_open|].
  split; [exact strip_think_pair|].
  split; [exact strip_think_unclosed|].
  split; [|split; [|split]].
  - intros conv input tokens pre mid post Hne Hcat Hpre Hmid Hpost.
    destruct (Visible conv input tokens Hne) as (m & E & Hr & Hc).
    exists m. split; [exact E|]. split; [exact Hr|].
    rewrite Hc, Hcat, strip_think_pair by assumption.
    rewrite (strip_think_no_open post Hpost). reflexivity.
  - intros conv input tokens Hall.
    destruct (complete_shape conv input tokens) as (l & m & E & _ & _ & _ & _ & Ht).
    exists m. rewrite E. split; [apply Last|]. apply Ht. exact Hall.
  - exact complete_whole_markers.
  - vm_compute. reflexivity.
Qed.

Lemma C1_witness :
  (exists m, last_turn (snd (complete INITIAL_CONVERSATION "hi"
                               ["Hello "; "<think>"; "plan"; "</think>"; " world"])) = Some m /\
             content m = trim ("Hello " ++ " world") /\
             thought m = Some (trim "plan")) /\
  (exists m, last_turn (snd (complete INITIAL_CONVERSATION "hi"
                               ["a<th"; "ink>x</think>b<think>y</thi"; "nk>c"])) = Some m /\
             content m = trim (strip_think "a<think>x</think>b<think>y</think>c")) /\
  strip_think "a<think>x</think>b<think>y</think>c" = "abc" /\
  strip_think "a<think>b" = "a<think>b".
Proof.
  destruct C1_visible_strip_and_reasoning
    as [HV [_ [HP [HU [H1 [_ [H3 _]]]]]]].
  split; [|split; [|split]].
  - destruct (H1 INITIAL_CONVERSATION "hi" ["Hello "; "<think>"; "plan"; "</think>"; " world"]
                "Hello " "plan" " world")
      as (m & E & _ & Hc);
      [discriminate | reflexivity | reflexivity | reflexivity | reflexivity |].
    destruct (H3 INITIAL_CONVERSATION "hi" ["Hello "] ["plan"] [" world"])
      as (m' & E' & Ht);
      [repeat constructor | repeat constructor | repeat constructor | reflexivity |].
    change ((["Hello "] ++ [OPEN] ++ ["plan"] ++ [CLOSE] ++ [" world"])%list)
      with ["Hello "; "<think>"; "plan"; "</think>"; " world"] in E'.
    rewrite E in E'. injection E' as <-.
    exists m. split; [exact E | split; [exact Hc | exact Ht]].
  - destruct (HV INITIAL_CONVERSATION "hi" ["a<th"; "ink>x</think>b<think>y</thi"; "nk>c"])
      as (m & E & _ & Hc); [discriminate|].
    exists m. split; [exact E | exact Hc].
  - change "a<think>x</think>b<think>y</think>c"
      with ("a" ++ OPEN ++ "x" ++ CLOSE ++ "b" ++ OPEN ++ "y" ++ CLOSE ++ "c").
    rewrite (HP "a" "x") by reflexivity.
    rewrite (HP "b" "y") by reflexivity. reflexivity.
  - apply (HU "a" "b"); reflexivity.
Defined.

(** C1 counterexample: the spec's fragments reassemble a complete pair
    around "planning", yet the reasoning field stays unset. *)
Lemma C1_counterexample :
  concat_all example_tokens = "Hello " ++ OPEN ++ "planning" ++ CLOSE ++ " world" /\
  exists m, last_turn (snd (complete INITIAL_CONVERSATION "hi" example_tokens)) = Some m /\
            thought m <> Some (trim "planning").
Proof.
  split; [reflexivity|].
  eexists. split; [vm_compute; reflexivity|]. simpl. discriminate.
Qed.

(** C2 (corrected). When no closing marker arrives in the stream, the
    reasoning field is never set, and the visible content is the trimmed
    concatenation of all fragments: an unclosed opening marker and the text
    after it stay visible, since only completed pairs are stripped. *)
Theorem C2_unclosed_marker_stays_visible : forall conv input tokens,
  includes (concat_all tokens) CLOSE = false ->
  exists m, last_turn (snd (complete conv input tokens)) = Some m /\
            thought m = None /\
            content m = match tokens with
                        | [] => ""
                        | _ => trim (concat_all tokens)
                        end.
Proof.
  intros conv input tokens Hcl.
  destruct (complete_shape conv input tokens) as (l & m & E & _ & Hv & Hnil & _ & Ht).
  exists m. rewrite E. split; [|split].
  - replace (conv ++ [mkMessage RUser input None false; m])%list
      with ((conv ++ [mkMessage RUser input None false]) ++ [m])%list
      by (rewrite <- app_assoc; reflexivity).
    apply last_turn_app.
  - apply Ht. intros t Hin. exact (includes_concat_in tokens t CLOSE Hcl Hin).
  - destruct tokens as [|t ts]; [apply Hnil; reflexivity|].
    rewrite Hv by discriminate. rewrite strip_think_no_close by exact Hcl. reflexivity.
Qed.

Lemma C2_witness :
  exists m, last_turn (snd (complete INITIAL_CONVERSATION "hi" ["Hi "; "<think>"; "abc"])) = Some m /\
            thought m = None /\ content m = "Hi <think>abc".
Proof.
  destruct (C2_unclosed_marker_stays_visible INITIAL_CONVERSATION "hi" ["Hi "; "<think>"; "abc"])
    as (m & E & Ht & Hc); [reflexivity|].
  exists m. split; [exact E | split; [exact Ht | exact Hc]].
Defined.

(** C2 counterexample: an unclosed opening marker and the text after it
    appear in the visible content. *)
Lemma C2_counterexample :
  exists m, last_turn (snd (complete INITIAL_CONVERSATION "hi" ["Hi "; "<think>"; "abc"])) = Some m /\
            includes (content m) OPEN = true /\ includes (content m) "abc" = true.
Proof. eexists. split; [vm_compute; reflexivity | split; reflexivity]. Qed.

(* ------------------------------------------------------------------ *)
(** ** [stopGeneration] *)

(** ["\n\n*Generation stopped by user*"] *)
Definition STOP_NOTICE : string :=
  String "010" (String "010" "*Generation stopped by user*").

(** The [setConversation] updater of [stopGeneration]. [None] stands for
    the TypeError of reading [.role] of [prev[prev.length - 1]] on an empty
    log (which the app never has: the system turn is always present). *)
Definition stop_update (prev : list Message) : option (list Message) :=
  match last_turn prev with
  | None => None
  | Some lastMessage =>
      if role_eqb (role lastMessage) RAssistant then
        Some (removelast prev ++ [set_content (content lastMessage ++ STOP_NOTICE) lastMessage])%list
      else Some prev
  end.

(** [stopGeneration]: [await context.stopCompletion()], then the updater;
    when [stopCompletion] throws ([stop_ok = false], e.g. no context) the
    error is only logged. *)
Definition stopGeneration (stop_ok : bool) (conv : list Message) : option (list Message) :=
  if stop_ok then stop_update conv else Some conv.

(** A cancellation invoked in session state [st]: the engine may still
    deliver [late] tokens to the completion callback while
    [context.stopCompletion()] is awaited; then the updater runs. *)
Definition cancel_with_late_tokens (late : list string) (st : Locals * list Message)
  : option (list Message) :=
  stopGeneration true (snd (stream late st)).

(** C3 (corrected). When the stop request resolves, [stopGeneration]
    appends the fixed notice ["\n\n*Generation stopped by user*"] to the
    content the in-flight assistant turn has at that point, leaving that
    content and every earlier turn intact. Tokens the engine still delivers
    between the cancel request and that point keep updating the turn, so
    the notice follows the content at resolution time; it is the content at
    the moment cancel was invoked when no token arrives in between. *)
Theorem C3_stop_appends_notice : forall l pre m late,
  role m = RAssistant ->
  exists m',
    snd (stream late (l, pre ++ [m])%list) = (pre ++ [m'])%list /\
    role m' = RAssistant /\
    cancel_with_late_tokens late (l, pre ++ [m])%list =
      Some (pre ++ [set_content (content m' ++ STOP_NOTICE) m'])%list /\
    (late = [] -> m' = m).
Proof.
  intros l pre m late Hr.
  destruct (stream_shape late l pre m) as (l' & m' & E & _ & _ & Hr' & _).
  exists m'. unfold cancel_with_late_tokens, stopGeneration, stop_update.
  rewrite E. simpl snd. repeat split.
  - congruence.
  - rewrite last_turn_app. rewrite Hr', Hr. simpl. rewrite removelast_last. reflexivity.
  - intros ->. simpl in E. injection E as _ Em. apply app_inj_tail in Em.
    destruct Em as [_ Em]. symmetry. exact Em.
Qed.

Lemma C3_witness :
  cancel_with_late_tokens [] (init_locals, INITIAL_CONVERSATION ++ [assistant_placeholder])%list =
  Some (INITIAL_CONVERSATION ++ [set_content ("" ++ STOP_NOTICE) assistant_placeholder])%list.
Proof.
  destruct (C3_stop_appends_notice init_locals INITIAL_CONVERSATION assistant_placeholder []
              eq_refl) as (m' & _ & _ & E & Hnil).
  rewrite E. rewrite (Hnil eq_refl). reflexivity.
Defined.

Definition hello_state : Locals * list Message :=
  complete INITIAL_CONVERSATION "hi" ["Hello"].

(** C3 counterexample: the turn shows "Hello" when cancel is invoked; a
    token delivered while the stop request is pending ends up before the
    notice, so the result is not "Hello" followed by the notice. *)
Lemma C3_counterexample :
  last_turn (snd hello_state) = Some (mkMessage RAssistant "Hello" None false) /\
  exists conv' m,
    cancel_with_late_tokens [" world"] hello_state = Some conv' /\
    last_turn conv' = Some m /\ content m <> "Hello" ++ STOP_NOTICE.
Proof.
  split; [vm_compute; reflexivity|].
  eexists _, _. split; [vm_compute; reflexivity|]. split; [vm_compute; reflexivity|].
  vm_compute. discriminate.
Qed.

(** C10. When the last turn of the log is not an assistant turn,
    [stopGeneration] leaves the log unchanged, whether or not the stop
    request itself succeeds. *)
Theorem C10_stop_frame_non_assistant : forall conv m stop_ok,
  last_turn conv = Some m -> role m <> RAssistant ->
  stopGeneration stop_ok conv = Some conv.
Proof.
  intros conv m stop_ok Hl Hr. unfold stopGeneration, stop_update.
  destruct stop_ok; [|reflexivity]. rewrite Hl.
  destruct (role m); simpl; congruence.
Qed.

Lemma C10_witness :
  stopGeneration true (INITIAL_CONVERSATION ++ [mkMessage RUser "hi" None false])%list =
  Some (INITIAL_CONVERSATION ++ [mkMessage RUser "hi" None false])%list.
Proof.
  apply (C10_stop_frame_non_assistant _ (mkMessage RUser "hi" None false)).
  - reflexivity.
  - discriminate.
Defined.

(* ------------------------------------------------------------------ *)
(** ** Engine handles: [loadModel] and [handleBackToModelSelection] *)

(** The React [context] state and the llama contexts alive in the
    native engine ([initLlama] adds one, [releaseAllLlama] frees all). *)
Record Engine := mkEngine {
  context : option nat;
  live : list nat;
  next_handle : nat
}.

Definition init_engine : Engine := mkEngine None [] 0.

(** [if (context) { await releaseAllLlama(); setContext(null); ... }] *)
Definition load_release (e : Engine) : Engine :=
  match context e with
  | Some _ => mkEngine None [] (next_handle e)
  | None => e
  end.

(** [initLlama] then [setContext(llamaContext)]; a failing [initLlama]
    throws before [setContext] and changes nothing. *)
Definition load_init (ok : bool) (e : Engine) : Engine :=
  if ok then mkEngine (Some (next_handle e)) (next_handle e :: live e) (S (next_handle e))
  else e.

(** [handleBackToModelSelection]: [setContext(null); releaseAllLlama()]. *)
Definition back_to_selection (e : Engine) : Engine :=
  mkEngine None [] (next_handle e).

Inductive EngineOp := OpLoad (ok : bool) | OpBack.

(** The state an operation ends in, and the states observable while it
    runs: for [loadModel], the state when [initLlama] is called. Loads run
    one at a time: while [isModelLoading] the full-screen overlay
    (absolute, [zIndex: 1000]) covers every control. *)
Definition op_final (op : EngineOp) (e : Engine) : Engine :=
  match op with
  | OpLoad ok => load_init ok (load_release e)
  | OpBack => back_to_selection e
  end.

Definition op_intermediate (op : EngineOp) (e : Engine) : list Engine :=
  match op with
  | OpLoad _ => [load_release e]
  | OpBack => []
  end.

(** Every state inspected along a sequence of operations. *)
Fixpoint run_ops (ops : list EngineOp) (e : Engine) : list Engine :=
  match ops with
  | [] => [e]
  | op :: ops' => e :: op_intermediate op e ++ run_ops ops' (op_final op e)
  end.

Definition handles_of (c : option nat) : list nat :=
  match c with
  | Some h => [h]
  | None => []
  end.

Definition engine_inv (e : Engine) : Prop := live e = handles_of (context e).

Lemma engine_inv_release : forall e, engine_inv e ->
  engine_inv (load_release e) /\ live (load_release e) = [] /\ context (load_release e) = None.
Proof.
  intros [c l n] H; unfold engine_inv, load_release in *; simpl in *.
  destruct c; simpl; auto.
Qed.

Lemma engine_inv_init : forall ok e, live e = [] -> context e = None -> engine_inv (load_init ok e).
Proof.
  intros ok [c l n] Hl Hc; unfold engine_inv, load_init; simpl in *; subst.
  destruct ok; reflexivity.
Qed.

Lemma engine_inv_run : forall ops e, engine_inv e ->
  Forall (fun e' => engine_inv e' /\ live (load_release e') = []) (run_ops ops e).
Proof.
  induction ops as [|op ops IH]; intros e H; simpl.
  - constructor; [split; [exact H | apply engine_inv_release, H] | constructor].
  - constructor; [split; [exact H | apply engine_inv_release, H]|].
    destruct op as [ok|]; simpl.
    + destruct (engine_inv_release e H) as (H1 & H2 & H3).
      constructor; [split; [exact H1 | apply engine_inv_release, H1]|].
      apply IH. apply engine_inv_init; assumption.
    + apply IH. reflexivity.
Qed.

(** C4. Along any sequence of loads (each succeeding or failing) and
    returns to model selection, every inspected state holds at most one
    live engine handle, and it is the one in [context]; the release phase
    of [loadModel] leaves no handle live when [initLlama] is called. *)
Theorem C4_at_most_one_handle : forall ops,
  Forall (fun e => length (live e) <= 1 /\ live e = handles_of (context e) /\
                   live (load_release e) = [])
         (run_ops ops init_engine).
Proof.
  intros ops.
  assert (H := engine_inv_run ops init_engine eq_refl).
  eapply Forall_impl; [|exact H].
  intros e [Hi Hr]. unfold engine_inv in Hi. repeat split; auto.
  rewrite Hi. destruct (context e); simpl; lia.
Qed.

(* ------------------------------------------------------------------ *)
(** ** Model metadata *)

(** [type ModelMetadata]; [size] in bytes. *)
Record ModelMetadata := mkMeta {
  filename : string;
  format : string;
  downloadDate : string;
  size : option N
}.

Definition set_size (n : N) (m : ModelMetadata) : ModelMetadata :=
  mkMeta (filename m) (format m) (downloadDate m) (Some n).

Definition set_format (f : string) (m : ModelMetadata) : ModelMetadata :=
  mkMeta (filename m) f (downloadDate m) (size m).

(** [file.name.endsWith(suffix)] *)
Definition ends_with (s suffix : string) : bool :=
  let n := String.length s in
  let k := String.length suffix in
  (k <=? n)%nat && String.eqb (substring (n - k) k s) suffix.

(** The format inference of [checkDownloadedModels]. *)
Definition infer_format (filename : string) : string :=
  if includes filename "Llama-3.2" || includes filename "llama-3.2" then
    "Llama-3.2-1B-Instruct"
  else if includes filename "Qwen2" || includes filename "qwen2" then
    "Qwen2-0.5B-Instruct"
  else if includes filename "DeepSeek" || includes filename "deepseek" then
    "DeepSeek-R1-Distill-Qwen-1.5B"
  else if includes filename "SmolLM" || includes filename "smollm" then
    "SmolLM2-1.7B-Instruct"
  else "Unknown".

(** An entry of [RNFS.readDir(RNFS.DocumentDirectoryPath)] with the
    result of [RNFS.stat] on it ([None] when [stat] throws). *)
Record DirEntry := mkEntry {
  entry_name : string;
  entry_stat : option N
}.

(** The record built for a file found on disk; [now] stands for
    [new Date().toISOString()]. The code evaluates it once per record,
    after that record's [stat], so records built in one pass may carry
    different dates; the model gives them one timestamp, and only the
    [downloadDate] fields see the difference. *)
Definition synth_record (now : string) (e : DirEntry) : ModelMetadata :=
  mkMeta (entry_name e) (infer_format (entry_name e)) now (entry_stat e).

(** [checkDownloadedModels]: [snapshot] is the [modelMetadata] value the
    effect closure sees, [prev] the state its [setModelMetadata] updater
    receives. *)
Definition checkDownloadedModels (snapshot : list ModelMetadata) (dir : list DirEntry)
    (now : string) (prev : list ModelMetadata) : list ModelMetadata :=
  let ggufFiles := filter (fun e => ends_with (entry_name e) ".gguf") dir in
  let existingFilenames := map filename snapshot in
  let newFiles := filter (fun e => negb (existsb (String.eqb (entry_name e)) existingFilenames))
                         ggufFiles in
  match newFiles with
  | [] => prev
  | _ => (prev ++ map (synth_record now) newFiles)%list
  end.

(** The effect is registered with [useEffect(..., [])], so its closure is
    the one of the first render, where [modelMetadata] is still the
    initial [useState] value. *)
Definition mount_snapshot : list ModelMetadata := [].

(** Startup when the metadata load effect lands first: the state holds the
    loaded mapping [loaded] when the reconciliation updater runs. *)
Definition startup_reconcile (loaded : list ModelMetadata) (dir : list DirEntry) (now : string)
  : list ModelMetadata :=
  checkDownloadedModels mount_snapshot dir now loaded.

Definition count_filename (f : string) (l : list ModelMetadata) : nat :=
  length (filter (fun m => String.eqb (filename m) f) l).

(* ------------------------------------------------------------------ *)
(** ** [handleDownloadModel] *)

Fixpoint find_index {A} (p : A -> bool) (l : list A) : option nat :=
  match l with
  | [] => None
  | x :: l' => if p x then Some 0 else option_map S (find_index p l')
  end.

(** [arr[i] = f(arr[i])] for an index [i] inside the array. *)
Fixpoint update_at {A} (i : nat) (f : A -> A) (l : list A) : list A :=
  match l, i with
  | [], _ => []
  | x :: l', O => f x :: l'
  | x :: l', S i' => x :: update_at i' f l'
  end.

(** [!updatedMetadata[existingIndex].size]: undefined or 0. *)
Definition size_missing (o : option N) : bool :=
  match o with
  | None => true
  | Some n => N.eqb n 0
  end.

(** The size backfill updater of the existing-file branch. *)
Definition backfill_size (file : string) (sz : N) (prev : list ModelMetadata)
  : list ModelMetadata :=
  match find_index (fun m => String.eqb (filename m) file) prev with
  | Some i =>
      match nth_error prev i with
      | Some m => if size_missing (size m) then update_at i (set_size sz) prev else prev
      | None => prev
      end
  | None => prev
  end.

(** The updater after a completed download: replace or append. *)
Definition upsert_record (r : ModelMetadata) (prev : list ModelMetadata) : list ModelMetadata :=
  match find_index (fun m => String.eqb (filename m) (filename r)) prev with
  | Some i => update_at i (fun _ => r) prev
  | None => (prev ++ [r])%list
  end.

(** The metadata updater of a successful [loadModel]: a record whose
    format is ["Unknown"] in the closure's [snapshot] gets
    [selectedModelFormat || m.format]. *)
Definition load_meta_update (snapshot : list ModelMetadata) (modelName selected : string)
    (prev : list ModelMetadata) : list ModelMetadata :=
  match find (fun m => String.eqb (filename m) modelName) snapshot with
  | Some mm =>
      if String.eqb (format mm) "Unknown" then
        map (fun m => if String.eqb (filename m) modelName
                      then set_format (if String.eqb selected "" then format m else selected) m
                      else m) prev
      else prev
  | None => prev
  end.

(** What the download function reports: the progress values passed to
    its callback, then either the final [RNFS.stat] size (or [None] when
    that [stat] throws) or a transfer error. *)
Inductive Transfer :=
  | TransferDone (progress : list N) (final_stat : option N)
  | TransferError (progress : list N).

(** The environment of one [handleDownloadModel] call: whether the
    destination exists and its [stat], the outcomes of the [loadModel]
    calls, and the transfer. *)
Record DownloadEnv := mkEnv {
  dest_exists : bool;
  dest_stat : option N;
  load_first : bool;
  load_after_download : bool;
  transfer : Transfer
}.

Inductive DEvent :=
  | ELoad (ok : bool)
  | EAlreadyAvailable
  | ETransferStart
  | EProgress (p : N)
  | ESuccess
  | EError.

(** Modelled from the spec: [downloadModel] of [src/api/model] (not part
    of the sources given), the byte transfer of 6. EXTERNAL INTERFACES:
    it starts a transfer to the destination path and reports fractional
    progress through its callback, then returns the path or fails. *)
Definition downloadModel_events (t : Transfer) : list DEvent :=
  match t with
  | TransferDone prog _ | TransferError prog => ETransferStart :: map EProgress prog
  end.

Definition handleDownloadModel (file selected now : string) (env : DownloadEnv)
    (meta : list ModelMetadata) : list DEvent * list ModelMetadata :=
  let '(ev1, meta1, finished) :=
    if dest_exists env then
      let meta1 := match dest_stat env with
                   | Some sz => backfill_size file sz meta
                   | None => meta
                   end in
      if load_first env then
        ([ELoad true; EAlreadyAvailable], load_meta_update meta file selected meta1, true)
      else ([ELoad false], meta1, false)
    else ([], meta, false) in
  if finished then (ev1, meta1)
  else
    let ev2 := (ev1 ++ downloadModel_events (transfer env))%list in
    match transfer env with
    | TransferDone _ (Some sz) =>
        let meta2 := upsert_record (mkMeta file selected now (Some sz)) meta1 in
        ((ev2 ++ [ESuccess; ELoad (load_after_download env)])%list,
         if load_after_download env then load_meta_update meta file selected meta2 else meta2)
    | _ => ((ev2 ++ [EError])%list, meta1)
    end.

Definition is_transfer_event (e : DEvent) : bool :=
  match e with
  | ETransferStart | EProgress _ => true
  | _ => false
  end.

Module MetadataFacts.
Local Open Scope list_scope.

Lemma filter_none {A} (p : A -> bool) (l : list A) :
  (forall x, In x l -> p x = false) -> filter p l = [].
Proof.
  induction l as [|x l IH]; intros H; [reflexivity|]. simpl.
  rewrite (H x (or_introl eq_refl)). apply IH. intros y Hy. apply H. right; exact Hy.
Qed.

Lemma existsb_name_in : forall n (M : list ModelMetadata),
  existsb (String.eqb n) (map filename M) = true <-> exists m, In m M /\ filename m = n.
Proof.
  intros n M. rewrite existsb_exists. split.
  - intros (x & Hx & Heq). apply in_map_iff in Hx. destruct Hx as (m & <- & Hm).
    apply String.eqb_eq in Heq. exists m. split; [exact Hm | symmetry; exact Heq].
  - intros (m & Hm & <-). exists (filename m). split; [apply in_map; exact Hm|].
    apply String.eqb_refl.
Qed.

(** A reconciliation that reads the mapping its updater receives (what the
    code intends with [existingFilenames]) adds nothing when run again. *)
Lemma reconcile_fresh_idempotent : forall M dir now now',
  let M1 := checkDownloadedModels M dir now M in
  checkDownloadedModels M1 dir now' M1 = M1.
Proof.
  intros M dir now now' M1.
  unfold checkDownloadedModels at 1.
  rewrite filter_none; [reflexivity|].
  intros e He. apply filter_In in He. destruct He as [Hdir Hg].
  apply negb_false_iff. apply existsb_name_in.
  destruct (existsb (String.eqb (entry_name e)) (map filename M)) eqn:Ein.
  - apply existsb_name_in in Ein. destruct Ein as (m & Hm & Hn). exists m. split; [|exact Hn].
    unfold M1, checkDownloadedModels.
    destruct (filter _ (filter _ dir)); [exact Hm | apply in_or_app; left; exact Hm].
  - exists (synth_record now e). split; [|reflexivity].
    unfold M1, checkDownloadedModels.
    assert (Hn : In e (filter (fun e => negb (existsb (String.eqb (entry_name e)) (map filename M)))
                          (filter (fun e => ends_with (entry_name e) ".gguf") dir))).
    { apply filter_In. split; [apply filter_In; split; assumption|]. rewrite Ein. reflexivity. }
    destruct (filter _ (filter _ dir)) as [|x xs]; [destruct Hn|].
    apply in_or_app. right. apply in_map. exact Hn.
Qed.

Lemma reconcile_synthesizes : forall snapshot dir now prev e,
  In e dir -> ends_with (entry_name e) ".gguf" = true ->
  ~ In (entry_name e) (map filename snapshot) ->
  In (synth_record now e) (checkDownloadedModels snapshot dir now prev).
Proof.
  intros snapshot dir now prev e Hin Hg Hnot. unfold checkDownloadedModels.
  assert (Hn : In e (filter (fun e => negb (existsb (String.eqb (entry_name e)) (map filename snapshot)))
                        (filter (fun e => ends_with (entry_name e) ".gguf") dir))).
  { apply filter_In. split; [apply filter_In; split; assumption|].
    destruct (existsb (String.eqb (entry_name e)) (map filename snapshot)) eqn:E; [|reflexivity].
    apply existsb_exists in E. destruct E as (x & Hx & Heq). apply String.eqb_eq in Heq.
    subst. contradiction. }
  destruct (filter _ (filter _ dir)) as [|x xs]; [destruct Hn|].
  apply in_or_app. right. apply in_map. exact Hn.
Qed.

Lemma nth_error_update_at {A} : forall (l : list A) i f x,
  nth_error l i = Some x -> nth_error (update_at i f l) i = Some (f x).
Proof.
  induction l as [|y l IH]; intros [|i] f x H; simpl in *; try discriminate.
  - congruence.
  - apply IH. exact H.
Qed.

Lemma nth_error_load_meta_update : forall snapshot name sel prev i m,
  nth_error prev i = Some m ->
  exists m', nth_error (load_meta_update snapshot name sel prev) i = Some m' /\
             size m' = size m /\ filename m' = filename m.
Proof.
  intros snapshot name sel prev i m H. unfold load_meta_update.
  destruct (find _ snapshot) as [mm|]; [destruct (String.eqb (format mm) "Unknown")|];
    try (exists m; split; [exact H | split; reflexivity]).
  rewrite nth_error_map, H. simpl. eexists. split; [reflexivity|].
  destruct (String.eqb (filename m) name); simpl; split; reflexivity.
Qed.

End MetadataFacts.

Import MetadataFacts.

Definition qwen_file : string := "qwen2-instruct-q4.gguf".

Definition qwen_record : ModelMetadata :=
  mkMeta qwen_file "Qwen2-0.5B-Instruct" "2025-01-01T00:00:00.000Z" (Some 500%N).

Definition qwen_dir : list DirEntry := [mkEntry qwen_file (Some 500%N)].

(** C5 (code bug). At startup the reconciliation compares against the
    mapping of the first render (empty), not the loaded one: with the
    metadata file already holding the record of the file on disk, the
    record is appended a second time, and each further startup appends
    another. *)
Lemma C5_startup_duplicates :
  count_filename qwen_file (startup_reconcile [qwen_record] qwen_dir "2025-02-01T00:00:00.000Z") = 2 /\
  count_filename qwen_file
    (startup_reconcile (startup_reconcile [qwen_record] qwen_dir "2025-02-01T00:00:00.000Z")
                       qwen_dir "2025-02-01T00:00:00.000Z") = 3.
Proof. split; vm_compute; reflexivity. Qed.

(** The rules of the format inference, in their order of priority: the
    capitalised and the lower-case spelling of a key, and the family. *)
Definition family_rules : list (string * string * string) :=
  [("Llama-3.2", "llama-3.2", "Llama-3.2-1B-Instruct");
   ("Qwen2", "qwen2", "Qwen2-0.5B-Instruct");
   ("DeepSeek", "deepseek", "DeepSeek-R1-Distill-Qwen-1.5B");
   ("SmolLM", "smollm", "SmolLM2-1.7B-Instruct")].

Fixpoint first_match (rules : list (string * string * string)) (f : string) : string :=
  match rules with
  | [] => "Unknown"
  | (cap, low, fam) :: rs => if includes f cap || includes f low then fam else first_match rs f
  end.

(** ASCII lower-casing, used to state case-insensitive matching. *)
Definition lower_char (c : ascii) : ascii :=
  let n := nat_of_ascii c in
  if ((65 <=? n) && (n <=? 90))%nat then ascii_of_nat (n + 32) else c.

Fixpoint lower (s : string) : string :=
  match s with
  | EmptyString => EmptyString
  | String c s' => String (lower_char c) (lower s')
  end.

(** C6 (corrected). For every [.gguf] file on disk absent from the
    mapping the reconciliation reads, it synthesizes a record whose size is
    the [stat] result and whose format is the family of the first rule, in
    the order Llama-3.2, Qwen2, DeepSeek, SmolLM, whose key occurs in the
    filename in its capitalised or all-lower-case spelling, ["Unknown"] if
    none does. [qwen2-instruct-q4.gguf] gets the Qwen family and its size. *)
Theorem C6_format_inference :
  (forall f, infer_format f = first_match family_rules f) /\
  (forall snapshot dir now prev e,
     In e dir -> ends_with (entry_name e) ".gguf" = true ->
     ~ In (entry_name e) (map filename snapshot) ->
     In (mkMeta (entry_name e) (first_match family_rules (entry_name e)) now (entry_stat e))
        (checkDownloadedModels snapshot dir now prev)) /\
  (forall n now,
     checkDownloadedModels mount_snapshot [mkEntry qwen_file (Some n)] now [] =
     [mkMeta qwen_file "Qwen2-0.5B-Instruct" now (Some n)]).
Proof.
  split; [|split].
  - intros f. reflexivity.
  - intros snapshot dir now prev e Hin Hg Hnot.
    exact (reconcile_synthesizes snapshot dir now prev e Hin Hg Hnot).
  - intros n now. reflexivity.
Qed.

Lemma C6_witness :
  In (mkMeta qwen_file "Qwen2-0.5B-Instruct" "now" (Some 500%N))
     (checkDownloadedModels [] qwen_dir "now" []).
Proof.
  destruct C6_format_inference as [_ [H _]].
  apply (H [] qwen_dir "now" [] (mkEntry qwen_file (Some 500%N))).
  - left; reflexivity.
  - reflexivity.
  - simpl. tauto.
Defined.

Definition QWEN_UPPER : string := "QWEN2-0.5B-INSTRUCT-Q4_K_M.gguf".

(** C6 counterexample: the filename contains the Qwen family name up to
    case, yet the synthesized record's format is ["Unknown"]. *)
Lemma C6_counterexample :
  includes (lower QWEN_UPPER) (lower "Qwen2-0.5B-Instruct") = true /\
  checkDownloadedModels mount_snapshot [mkEntry QWEN_UPPER (Some 500%N)] "now" [] =
    [mkMeta QWEN_UPPER "Unknown" "now" (Some 500%N)].
Proof. split; vm_compute; reflexivity. Qed.

(** C7 (corrected). When the destination exists and its [stat]
    succeeds, the measured size is first written into the file's first
    record when that record's size is missing, whatever the load outcome;
    then the model is loaded. When that [loadModel] succeeds, no transfer
    starts and no progress is reported, and the model is reported as
    already available. When it fails, the code goes on to download the file
    again, over the backfilled mapping: a completed download replaces the
    record with a new one holding the downloaded size, a failed transfer
    leaves the backfilled record. *)
Theorem C7_existing_file_short_circuit :
  (forall file selected now env meta,
     dest_exists env = true -> load_first env = true ->
     handleDownloadModel file selected now env meta =
       ([ELoad true; EAlreadyAvailable],
        load_meta_update meta file selected
          (match dest_stat env with
           | Some sz => backfill_size file sz meta
           | None => meta
           end)) /\
     existsb is_transfer_event (fst (handleDownloadModel file selected now env meta)) = false) /\
  (forall file selected now env meta i m sz,
     dest_exists env = true -> dest_stat env = Some sz ->
     find_index (fun m => String.eqb (filename m) file) meta = Some i ->
     nth_error meta i = Some m -> size_missing (size m) = true ->
     (load_first env = true \/ forall prog sz', transfer env <> TransferDone prog (Some sz')) ->
     exists m', nth_error (snd (handleDownloadModel file selected now env meta)) i = Some m' /\
                filename m' = filename m /\ size m' = Some sz) /\
  (forall file selected now env meta,
     dest_exists env = true -> load_first env = false ->
     In ETransferStart (fst (handleDownloadModel file selected now env meta)) /\
     snd (handleDownloadModel file selected now env meta) =
       (let meta1 := match dest_stat env with
                     | Some sz => backfill_size file sz meta
                     | None => meta
                     end in
        match transfer env with
        | TransferDone _ (Some sz') =>
            let meta2 := upsert_record (mkMeta file selected now (Some sz')) meta1 in
            if load_after_download env then load_meta_update meta file selected meta2 else meta2
        | _ => meta1
        end)).
Proof.
  split; [|split].
  - intros file selected now env meta He Hl.
    assert (E : handleDownloadModel file selected now env meta =
       ([ELoad true; EAlreadyAvailable],
        load_meta_update meta file selected
          (match dest_stat env with
           | Some sz => backfill_size file sz meta
           | None => meta
           end))).
    { unfold handleDownloadModel. rewrite He, Hl. reflexivity. }
    split; [exact E | rewrite E; reflexivity].
  - intros file selected now env meta i m sz He Hs Hi Hn Hm Hor.
    assert (Hb : nth_error (backfill_size file sz meta) i = Some (set_size sz m)).
    { unfold backfill_size. rewrite Hi, Hn, Hm. apply nth_error_update_at. exact Hn. }
    unfold handleDownloadModel. rewrite He, Hs.
    destruct (load_first env) eqn:Hl.
    + simpl snd.
      destruct (nth_error_load_meta_update meta file selected _ i _ Hb) as (m' & E & Hsz & Hf).
      exists m'. split; [exact E | split; [exact Hf | exact Hsz]].
    + destruct Hor as [Hor | Hor]; [discriminate|].
      destruct (transfer env) as [prog [sz'|]|prog] eqn:Ht.
      * exfalso. exact (Hor prog sz' eq_refl).
      * exists (set_size sz m). split; [exact Hb | split; reflexivity].
      * exists (set_size sz m). split; [exact Hb | split; reflexivity].
  - intros file selected now env meta He Hl.
    unfold handleDownloadModel. rewrite He, Hl.
    destruct (transfer env) as [prog [sz|]|prog]; simpl; (split; [right; left; reflexivity|]);
      reflexivity.
Qed.

Definition env_existing (first_load_ok : bool) : DownloadEnv :=
  mkEnv true (Some 500%N) first_load_ok true (TransferDone [250%N; 1000%N] (Some 500%N)).

Definition qwen_unsized : ModelMetadata :=
  mkMeta qwen_file "Qwen2-0.5B-Instruct" "2025-01-01T00:00:00.000Z" None.

Lemma C7_witness :
  handleDownloadModel qwen_file "Qwen2-0.5B-Instruct" "now" (env_existing true) [qwen_unsized] =
    ([ELoad true; EAlreadyAvailable],
     [mkMeta qwen_file "Qwen2-0.5B-Instruct" "2025-01-01T00:00:00.000Z" (Some 500%N)]) /\
  exists m', nth_error (snd (handleDownloadModel qwen_file "Qwen2-0.5B-Instruct" "now"
                               (mkEnv true (Some 500%N) false false (TransferError [250%N]))
                               [qwen_unsized])) 0 = Some m' /\
             filename m' = qwen_file /\ size m' = Some 500%N.
Proof.
  destruct C7_existing_file_short_circuit as [H [H2 _]].
  split.
  - destruct (H qwen_file "Qwen2-0.5B-Instruct" "now" (env_existing true) [qwen_unsized]
                eq_refl eq_refl) as [E _].
    rewrite E. vm_compute. reflexivity.
  - apply (H2 qwen_file "Qwen2-0.5B-Instruct" "now"
             (mkEnv true (Some 500%N) false false (TransferError [250%N]))
             [qwen_unsized] 0 qwen_unsized 500%N);
      [reflexivity | reflexivity | vm_compute; reflexivity | reflexivity | reflexivity |].
    right. intros prog sz' Ht. discriminate.
Defined.

(** C7 counterexample: the destination exists (500 bytes) but the first
    load fails; the file is transferred again with progress reports. *)
Lemma C7_counterexample :
  existsb is_transfer_event
    (fst (handleDownloadModel qwen_file "Qwen2-0.5B-Instruct" "now" (env_existing false)
            [qwen_unsized])) = true.
Proof. vm_compute. reflexivity. Qed.

(* ------------------------------------------------------------------ *)
(** ** Throughput samples of [handleSendMessage] *)

(** How [await context.completion(...)] ends: it returns its result (also
    after [stopCompletion]) with the sample
    [parseFloat(result.timings.predicted_per_second.toFixed(2))], or it
    throws. *)
Inductive CompletionOutcome :=
  | Returned (sample : Z)
  | Threw.

Record ChatState := mkChat {
  conversation : list Message;
  tokensPerSecond : list Z
}.

Definition initial_chat : ChatState := mkChat INITIAL_CONVERSATION [].

(** [handleSendMessage]: [has_context] tells whether the [context] state
    holds an engine. Without one the call alerts "Model Not Loaded" and
    returns; blank input is rejected the same way. Otherwise the user turn
    and the assistant turn are appended and filled by the tokens, and a
    sample is appended only when the call returns. *)
Definition handleSendMessage (has_context : bool) (input : string) (tokens : list string)
    (outcome : CompletionOutcome) (s : ChatState) : ChatState :=
  if negb has_context then s
  else if String.eqb (trim input) "" then s
  else
    mkChat (snd (complete (conversation s) input tokens))
           (match outcome with
            | Returned t => (tokensPerSecond s ++ [t])%list
            | Threw => tokensPerSecond s
            end).

Record Run := mkRun {
  run_context : bool;
  run_input : string;
  run_tokens : list string;
  run_outcome : CompletionOutcome
}.

Fixpoint run_chat (runs : list Run) (s : ChatState) : ChatState :=
  match runs with
  | [] => s
  | r :: rs =>
      run_chat rs (handleSendMessage (run_context r) (run_input r) (run_tokens r)
                                     (run_outcome r) s)
  end.

Definition assistant_turns (conv : list Message) : list Message :=
  filter (fun m => role_eqb (role m) RAssistant) conv.

Definition run_accepted (r : Run) : bool :=
  run_context r && negb (String.eqb (trim (run_input r)) "").

(** The throughput each accepted run attaches to the assistant turn it
    creates, if any. *)
Definition turn_throughputs (runs : list Run) : list (option Z) :=
  map (fun r => match run_outcome r with Returned t => Some t | Threw => None end)
      (filter run_accepted runs).

Definition somes (l : list (option Z)) : list Z :=
  flat_map (fun o => match o with Some t => [t] | None => [] end) l.

(** The throughput line under each assistant bubble:
    [conversation.slice(1).map((msg, index) => ... msg.role === "assistant"
    && tokensPerSecond[Math.floor(index / 2)] ...)]; [None] is
    [undefined]. [k] is the index in the sliced list. *)
Fixpoint token_info_from (tps : list Z) (k : nat) (l : list Message) : list (option Z) :=
  match l with
  | [] => []
  | m :: l' =>
      if role_eqb (role m) RAssistant
      then nth_error tps (Nat.div k 2) :: token_info_from tps (S k) l'
      else token_info_from tps (S k) l'
  end.

Definition token_info (s : ChatState) : list (option Z) :=
  token_info_from (tokensPerSecond s) 0 (skipn 1 (conversation s)).

Module ChatFacts.
Import StreamFacts.
Local Open Scope list_scope.

Lemma run_chat_samples : forall runs s,
  tokensPerSecond (run_chat runs s) = (tokensPerSecond s ++ somes (turn_throughputs runs))%list /\
  length (assistant_turns (conversation (run_chat runs s))) =
    length (assistant_turns (conversation s)) + length (turn_throughputs runs).
Proof.
  induction runs as [|r rs IH]; intros s.
  - simpl. rewrite app_nil_r. split; [reflexivity | lia].
  - simpl. destruct (IH (handleSendMessage (run_context r) (run_input r) (run_tokens r)
                           (run_outcome r) s)) as [H1 H2].
    rewrite H1, H2. unfold handleSendMessage, turn_throughputs, run_accepted in *. simpl.
    destruct (run_context r); simpl; [|split; [reflexivity | lia]].
    destruct (String.eqb (trim (run_input r)) "") eqn:Eb; simpl.
    + split; [reflexivity | lia].
    + destruct (complete_shape (conversation s) (run_input r) (run_tokens r))
        as (l' & m' & E & _ & _ & _ & Hr & _).
      rewrite E. unfold assistant_turns. rewrite filter_app, length_app. simpl.
      rewrite Hr. simpl.
      destruct (run_outcome r); simpl; [rewrite <- app_assoc|]; split; try reflexivity; lia.
Qed.

Lemma map_some_somes : forall l, Forall (fun o => o <> None) l -> map Some (somes l) = l.
Proof.
  induction l as [|o l IH]; intros H; [reflexivity|].
  inversion H as [|? ? Ho Hl]; subst.
  destruct o as [t|]; [|congruence]. simpl. f_equal. apply IH. exact Hl.
Qed.

(** A sample is appended exactly when the completion call returns: the
    samples are, in order, those of the accepted runs that returned, and
    there is one assistant turn per accepted run. *)
Lemma samples_of_returning_runs : forall runs,
  tokensPerSecond (run_chat runs initial_chat) = somes (turn_throughputs runs) /\
  length (assistant_turns (conversation (run_chat runs initial_chat))) =
    length (turn_throughputs runs) /\
  (Forall (fun o => o <> None) (turn_throughputs runs) ->
   map Some (tokensPerSecond (run_chat runs initial_chat)) = turn_throughputs runs).
Proof.
  intros runs. destruct (run_chat_samples runs initial_chat) as [H1 H2].
  simpl in H1, H2. split; [exact H1 | split; [exact H2|]].
  intros Hall. rewrite H1. apply map_some_somes. exact Hall.
Qed.

(** The turns after the system turn: [n] user/assistant pairs. *)
Inductive turn_pairs : nat -> list Message -> Prop :=
  | pairs_nil : turn_pairs 0 []
  | pairs_snoc n l u a :
      turn_pairs n l -> role u = RUser -> role a = RAssistant ->
      turn_pairs (S n) (l ++ [u; a]).

Lemma token_info_from_app : forall tps l1 l2 k,
  token_info_from tps k (l1 ++ l2) =
  token_info_from tps k l1 ++ token_info_from tps (k + length l1) l2.
Proof.
  induction l1 as [|m l1 IH]; intros l2 k.
  - simpl. rewrite Nat.add_0_r. reflexivity.
  - simpl. replace (k + S (length l1)) with (S k + length l1) by lia.
    destruct (role_eqb (role m) RAssistant); rewrite IH; reflexivity.
Qed.

Lemma turn_pairs_length : forall n l, turn_pairs n l -> length l = 2 * n.
Proof.
  intros n l H. induction H as [|n l u a H IH Hu Ha]; [reflexivity|].
  rewrite length_app. simpl. lia.
Qed.

Lemma turn_pairs_info : forall tps n l,
  turn_pairs n l -> token_info_from tps 0 l = map (nth_error tps) (seq 0 n).
Proof.
  intros tps n l H. induction H as [|n l u a H IH Hu Ha]; [reflexivity|].
  rewrite token_info_from_app, IH, (turn_pairs_length n l H).
  rewrite seq_S, map_app. f_equal.
  cbn [token_info_from]. rewrite Hu, Ha. cbn [role_eqb].
  replace (Nat.div (S (0 + 2 * n)) 2) with n
    by (apply (Nat.div_unique _ 2 n 1); lia).
  reflexivity.
Qed.

Lemma map_nth_error_seq : forall (l : list Z), map (nth_error l) (seq 0 (length l)) = map Some l.
Proof.
  induction l as [|x l IH]; [reflexivity|].
  simpl. f_equal. rewrite <- seq_shift, map_map. exact IH.
Qed.

Lemma run_chat_pairs : forall runs s n l,
  Forall (fun r => exists t, run_outcome r = Returned t) runs ->
  conversation s = INITIAL_CONVERSATION ++ l -> turn_pairs n l ->
  length (tokensPerSecond s) = n ->
  exists n' l', conversation (run_chat runs s) = INITIAL_CONVERSATION ++ l' /\
                turn_pairs n' l' /\ length (tokensPerSecond (run_chat runs s)) = n'.
Proof.
  induction runs as [|r rs IH]; intros s n l Hall Hc Hp Hl.
  - exists n, l. split; [exact Hc | split; assumption].
  - inversion Hall as [|? ? [t Ht] Hrs]. cbn [run_chat].
    unfold handleSendMessage.
    destruct (run_context r); [|apply (IH s n l); assumption]. cbn [negb].
    destruct (String.eqb (trim (run_input r)) "") eqn:Eb; cbv iota; [apply (IH s n l); assumption|].
    destruct (complete_shape (conversation s) (run_input r) (run_tokens r))
      as (l' & m' & E & _ & _ & _ & Hr & _).
    apply (IH _ (S n) (l ++ [mkMessage RUser (run_input r) None false; m'])).
    + exact Hrs.
    + simpl. rewrite E, Hc. rewrite <- app_assoc. reflexivity.
    + constructor; [exact Hp | reflexivity | exact Hr].
    + rewrite Ht. simpl. rewrite length_app. simpl. lia.
Qed.

End ChatFacts.

Import ChatFacts.

Definition two_runs : list Run :=
  [mkRun true "first" ["a"] Threw; mkRun true "second" ["b"] (Returned 5%Z)].

(** C9 (code bug). The render shows [tokensPerSecond[Math.floor(index/2)]]
    under the assistant bubble at [index] of [conversation.slice(1)], so
    the k-th assistant turn shows the k-th sample: when every run returns,
    each assistant turn shows its own run's throughput, in turn order. A
    completion that throws keeps its assistant turn but appends no sample,
    and every later turn then shows another run's throughput: after a run
    that throws and one that returns 5, the first (failed) turn shows 5 and
    the second shows undefined. *)
Theorem C9_throughput_display_misaligned :
  (forall runs,
     Forall (fun r => exists t, run_outcome r = Returned t) runs ->
     token_info (run_chat runs initial_chat) = map Some (tokensPerSecond (run_chat runs initial_chat)) /\
     map Some (tokensPerSecond (run_chat runs initial_chat)) = turn_throughputs runs) /\
  turn_throughputs two_runs = [None; Some 5%Z] /\
  token_info (run_chat two_runs initial_chat) = [Some 5%Z; None].
Proof.
  split; [|split; vm_compute; reflexivity].
  intros runs Hall.
  destruct (run_chat_pairs runs initial_chat 0 [] Hall) as (n & l & Hc & Hp & Hl);
    [reflexivity | constructor | reflexivity|].
  split.
  - unfold token_info. rewrite Hc. simpl skipn.
    rewrite (turn_pairs_info _ n l Hp), <- Hl. apply map_nth_error_seq.
  - apply (proj2 (proj2 (samples_of_returning_runs runs))).
    unfold turn_throughputs. apply Forall_forall. intros o Ho.
    apply in_map_iff in Ho. destruct Ho as (r & <- & Hr).
    apply filter_In in Hr. destruct Hr as [Hr _].
    rewrite Forall_forall in Hall. destruct (Hall r Hr) as [t Ht]. rewrite Ht. discriminate.
Qed.

Lemma C9_witness :
  token_info (run_chat [mkRun true "hi" ["a"] (Returned 7%Z); mkRun true "again" ["b"] (Returned 9%Z)]
                       initial_chat) = [Some 7%Z; Some 9%Z].
Proof.
  destruct C9_throughput_display_misaligned as [H _].
  destruct (H [mkRun true "hi" ["a"] (Returned 7%Z); mkRun true "again" ["b"] (Returned 9%Z)])
    as [E _].
  - repeat constructor; eexists; reflexivity.
  - rewrite E. vm_compute. reflexivity.
Defined.

(** ** Model metadata persistence (App.tsx lines 91-128 and 631-663)

    The file [model_metadata.json] holds [JSON.stringify(modelMetadata)];
    the load effect reads it back with [JSON.parse]. JSON is modelled for
    the values a [ModelMetadata[]] array produces: an array of objects whose
    members are strings or non-negative integers ([size] is a byte count). *)

Module JSON.

Definition QUOTE : ascii := "034".
Definition BSLASH : ascii := "092".

Definition hex_digit (n : nat) : ascii :=
  if (n <? 10)%nat then ascii_of_nat (48 + n) else ascii_of_nat (87 + n).

(** One code unit as [JSON.stringify] writes it inside a string literal:
    the two-character escapes, [\u00xx] with lowercase hex for the other
    control characters, and the character itself otherwise. *)
Definition escape_char (c : ascii) : string :=
  let n := nat_of_ascii c in
  if Ascii.eqb c QUOTE then String BSLASH (String QUOTE EmptyString)
  else if Ascii.eqb c BSLASH then String BSLASH (String BSLASH EmptyString)
  else if (n =? 8)%nat then String BSLASH (String "b" EmptyString)
  else if (n =? 12)%nat then String BSLASH (String "f" EmptyString)
  else if (n =? 10)%nat then String BSLASH (String "n" EmptyString)
  else if (n =? 13)%nat then String BSLASH (String "r" EmptyString)
  else if (n =? 9)%nat then String BSLASH (String "t" EmptyString)
  else if (n <? 32)%nat then
    String BSLASH (String "u" (String "0" (String "0"
      (String (hex_digit (n / 16)) (String (hex_digit (n mod 16)) EmptyString)))))
  else String c EmptyString.

Fixpoint escape_string (s : string) : string :=
  match s with
  | EmptyString => EmptyString
  | String c t => escape_char c ++ escape_string t
  end.

Definition quote_string (s : string) : string :=
  String QUOTE (escape_string s ++ String QUOTE EmptyString).

Inductive JPrim := JStr (s : string) | JNum (n : N).

Definition JObject := list (string * JPrim).

(** Integers below 10^21 are printed in plain decimal by JavaScript. *)
Definition stringify_prim (v : JPrim) : string :=
  match v with
  | JStr s => quote_string s
  | JNum n => NilEmpty.string_of_uint (N.to_uint n)
  end.

Definition stringify_member (kv : string * JPrim) : string :=
  quote_string (fst kv) ++ String ":" (stringify_prim (snd kv)).

Fixpoint stringify_more (kvs : JObject) : string :=
  match kvs with
  | [] => EmptyString
  | kv :: r => String "," (stringify_member kv ++ stringify_more r)
  end.

Definition stringify_object (o : JObject) : string :=
  String "{" (match o with
              | [] => EmptyString
              | kv :: r => stringify_member kv ++ stringify_more r
              end ++ String "}" EmptyString).

Fixpoint stringify_elems_more (os : list JObject) : string :=
  match os with
  | [] => EmptyString
  | o :: r => String "," (stringify_object o ++ stringify_elems_more r)
  end.

Definition stringify_array (os : list JObject) : string :=
  String "[" (match os with
              | [] => EmptyString
              | o :: r => stringify_object o ++ stringify_elems_more r
              end ++ String "]" EmptyString).

(** [JSON.parse] for these values. *)
Definition json_ws (c : ascii) : bool :=
  let n := nat_of_ascii c in
  ((n =? 32) || (n =? 9) || (n =? 10) || (n =? 13))%nat.

Fixpoint skip_ws (s : string) : string :=
  match s with
  | String c t => if json_ws c then skip_ws t else s
  | EmptyString => EmptyString
  end.

Definition hex_val (c : ascii) : option nat :=
  let n := nat_of_ascii c in
  if ((48 <=? n) && (n <=? 57))%nat then Some (n - 48)
  else if ((97 <=? n) && (n <=? 102))%nat then Some (n - 87)
  else if ((65 <=? n) && (n <=? 70))%nat then Some (n - 55)
  else None.

(** A [\uXXXX] escape; code units above 255 fall outside the byte strings
    of this model. *)
Definition unit_of_hex4 (a b c d : ascii) : option ascii :=
  match hex_val a, hex_val b, hex_val c, hex_val d with
  | Some x, Some y, Some z, Some w =>
      let v := (x * 4096 + y * 256 + z * 16 + w)%nat in
      if (v <? 256)%nat then Some (ascii_of_nat v) else None
  | _, _, _, _ => None
  end.

Definition cons_fst (c : ascii) (o : option (string * string)) : option (string * string) :=
  match o with
  | Some (v, r) => Some (String c v, r)
  | None => None
  end.

(** The body of a string literal, after its opening quote: the decoded
    string and what follows the closing quote. *)
Fixpoint parse_str_body (s : string) : option (string * string) :=
  match s with
  | EmptyString => None
  | String c t =>
    if Ascii.eqb c QUOTE then Some (EmptyString, t)
    else if Ascii.eqb c BSLASH then
      match t with
      | EmptyString => None
      | String e t' =>
        if Ascii.eqb e QUOTE then cons_fst QUOTE (parse_str_body t')
        else if Ascii.eqb e BSLASH then cons_fst BSLASH (parse_str_body t')
        else if Ascii.eqb e "/" then cons_fst "/" (parse_str_body t')
        else if Ascii.eqb e "b" then cons_fst "008" (parse_str_body t')
        else if Ascii.eqb e "f" then cons_fst "012" (parse_str_body t')
        else if Ascii.eqb e "n" then cons_fst "010" (parse_str_body t')
        else if Ascii.eqb e "r" then cons_fst "013" (parse_str_body t')
        else if Ascii.eqb e "t" then cons_fst "009" (parse_str_body t')
        else if Ascii.eqb e "u" then
          match t' with
          | String a (String b (String c2 (String d t''))) =>
            match unit_of_hex4 a b c2 d with
            | Some u => cons_fst u (parse_str_body t'')
            | None => None
            end
          | _ => None
          end
        else None
      end
    else if (nat_of_ascii c <? 32)%nat then None
    else cons_fst c (parse_str_body t)
  end.

Definition is_digit (c : ascii) : bool :=
  let n := nat_of_ascii c in ((48 <=? n) && (n <=? 57))%nat.

Fixpoint take_digits (s : string) : string * string :=
  match s with
  | String c t =>
    if is_digit c then let '(ds, r) := take_digits t in (String c ds, r)
    else (EmptyString, s)
  | EmptyString => (EmptyString, EmptyString)
  end.

(** A number in the integer form [JSON.stringify] writes for a byte count. *)
Definition parse_number (s : string) : option (JPrim * string) :=
  let '(ds, r) := take_digits s in
  match NilEmpty.uint_of_string ds with
  | Some d => Some (JNum (N.of_uint d), r)
  | None => None
  end.

Definition parse_prim (s : string) : option (JPrim * string) :=
  match s with
  | String c t =>
    if Ascii.eqb c QUOTE then
      match parse_str_body t with
      | Some (v, r) => Some (JStr v, r)
      | None => None
      end
    else if is_digit c then parse_number s
    else None
  | EmptyString => None
  end.

(** The members of an object after its [{]; [fuel] bounds their number. *)
Fixpoint parse_members (fuel : nat) (s : string) : option (JObject * string) :=
  match fuel with
  | O => None
  | S f =>
    match skip_ws s with
    | String q t =>
      if Ascii.eqb q QUOTE then
        match parse_str_body t with
        | Some (k, r) =>
          match skip_ws r with
          | String col r1 =>
            if Ascii.eqb col ":" then
              match parse_prim (skip_ws r1) with
              | Some (v, r2) =>
                match skip_ws r2 with
                | String sep r3 =>
                  if Ascii.eqb sep "," then
                    match parse_members f r3 with
                    | Some (kvs, r4) => Some ((k, v) :: kvs, r4)
                    | None => None
                    end
                  else if Ascii.eqb sep "}" then Some ([(k, v)], r3)
                  else None
                | EmptyString => None
                end
              | None => None
              end
            else None
          | EmptyString => None
          end
        | None => None
        end
      else None
    | EmptyString => None
    end
  end.

Definition parse_object (s : string) : option (JObject * string) :=
  match skip_ws s with
  | String c t =>
    if Ascii.eqb c "{" then
      match skip_ws t with
      | String d u => if Ascii.eqb d "}" then Some ([], u) else parse_members (String.length t) t
      | EmptyString => None
      end
    else None
  | EmptyString => None
  end.

Fixpoint parse_elems (fuel : nat) (s : string) : option (list JObject * string) :=
  match fuel with
  | O => None
  | S f =>
    match parse_object s with
    | Some (o, r) =>
      match skip_ws r with
      | String sep r1 =>
        if Ascii.eqb sep "," then
          match parse_elems f r1 with
          | Some (os, r2) => Some (o :: os, r2)
          | None => None
          end
        else if Ascii.eqb sep "]" then Some ([o], r1)
        else None
      | EmptyString => None
      end
    | None => None
    end
  end.

Definition parse_array (s : string) : option (list JObject * string) :=
  match skip_ws s with
  | String c t =>
    if Ascii.eqb c "[" then
      match skip_ws t with
      | String d u => if Ascii.eqb d "]" then Some ([], u) else parse_elems (String.length t) t
      | EmptyString => None
      end
    else None
  | EmptyString => None
  end.

Definition JSON_parse (s : string) : option (list JObject) :=
  match parse_array s with
  | Some (os, r) =>
    match skip_ws r with
    | EmptyString => Some os
    | String _ _ => None
    end
  | None => None
  end.

End JSON.

Import JSON.

(** A [ModelMetadata] object as [JSON.stringify] writes it: its keys in
    insertion order, [size] omitted when undefined. *)
Definition metadata_to_json (m : ModelMetadata) : JObject :=
  ([("filename", JStr (filename m)); ("format", JStr (format m));
    ("downloadDate", JStr (downloadDate m))] ++
   match size m with
   | Some n => [("size", JNum n)]
   | None => []
   end)%list.

Definition stringify_metadata (M : list ModelMetadata) : string :=
  stringify_array (map metadata_to_json M).

Fixpoint lookup_first (k : string) (o : JObject) : option JPrim :=
  match o with
  | [] => None
  | (k', v) :: r => if String.eqb k k' then Some v else lookup_first k r
  end.

(** A key given twice keeps its last value, as in [JSON.parse]. *)
Definition lookup_key (k : string) (o : JObject) : option JPrim :=
  lookup_first k (rev o).

(** Reading the parsed object as a [ModelMetadata]; an object without the
    record's shape is outside the type the code casts to. *)
Definition obj_to_metadata (o : JObject) : option ModelMetadata :=
  match lookup_key "filename" o, lookup_key "format" o, lookup_key "downloadDate" o with
  | Some (JStr f), Some (JStr fo), Some (JStr d) =>
    match lookup_key "size" o with
    | None => Some (mkMeta f fo d None)
    | Some (JNum n) => Some (mkMeta f fo d (Some n))
    | Some (JStr _) => None
    end
  | _, _, _ => None
  end.

Fixpoint decode_all (os : list JObject) : option (list ModelMetadata) :=
  match os with
  | [] => Some []
  | o :: r =>
    match obj_to_metadata o, decode_all r with
    | Some m, Some ms => Some (m :: ms)
    | _, _ => None
    end
  end.

Definition parse_metadata (txt : string) : option (list ModelMetadata) :=
  match JSON_parse txt with
  | Some os => decode_all os
  | None => None
  end.

(** The [modelMetadata] state and the content of [METADATA_FILE_PATH]. *)
Record Store := mkStore {
  modelMetadata : list ModelMetadata;
  metadata_file : option string
}.

(** The save effect, run after each change of [modelMetadata]: it writes
    [JSON.stringify(modelMetadata)] only when [modelMetadata.length > 0]. *)
Definition saveModelMetadata (s : Store) : Store :=
  if (0 <? List.length (modelMetadata s))%nat
  then mkStore (modelMetadata s) (Some (stringify_metadata (modelMetadata s)))
  else s.

(** [setModelMetadata(prev => f(prev))] followed by the save effect. *)
Definition setModelMetadata (f : list ModelMetadata -> list ModelMetadata) (s : Store) : Store :=
  saveModelMetadata (mkStore (f (modelMetadata s)) (metadata_file s)).

(** The load effect: a missing file or a parse error leaves the state at
    its initial [[]]. *)
Definition loadModelMetadata (file : option string) : list ModelMetadata :=
  match file with
  | None => []
  | Some txt =>
    match parse_metadata txt with
    | Some ms => ms
    | None => []
    end
  end.

(** The updater of [deleteModel]. *)
Definition deleteModel_update (fn : string) (prev : list ModelMetadata) : list ModelMetadata :=
  filter (fun m => negb (String.eqb (filename m) fn)) prev.

Module JSONFacts.
Import JSStringFacts.

Lemma escape_char_parse : forall c t,
  parse_str_body (escape_char c ++ t) = cons_fst c (parse_str_body t).
Proof.
  intros [b0 b1 b2 b3 b4 b5 b6 b7] t.
  destruct b0, b1, b2, b3, b4, b5, b6, b7; reflexivity.
Qed.

Lemma escape_string_parse : forall s rest,
  parse_str_body (escape_string s ++ String QUOTE rest) = Some (s, rest).
Proof.
  induction s as [|c s IH]; intros rest; [reflexivity|].
  simpl. rewrite append_assoc, escape_char_parse, IH. reflexivity.
Qed.

Lemma quote_string_app : forall k X,
  quote_string k ++ X = String QUOTE (escape_string k ++ String QUOTE X).
Proof. intros k X. unfold quote_string. simpl. rewrite append_assoc. reflexivity. Qed.

Definition nondigit_start (s : string) : bool :=
  match s with
  | String c _ => negb (is_digit c)
  | EmptyString => true
  end.

Lemma take_digits_uint : forall d rest, nondigit_start rest = true ->
  take_digits (NilEmpty.string_of_uint d ++ rest) = (NilEmpty.string_of_uint d, rest).
Proof.
  induction d; intros rest Hr; simpl; try (rewrite IHd by exact Hr; reflexivity).
  destruct rest as [|c t]; [reflexivity|].
  simpl in Hr. simpl. destruct (is_digit c); [discriminate | reflexivity].
Qed.

Lemma parse_number_uint : forall d rest, nondigit_start rest = true ->
  parse_number (NilEmpty.string_of_uint d ++ rest) = Some (JNum (N.of_uint d), rest).
Proof.
  intros d rest Hr. unfold parse_number. rewrite take_digits_uint by exact Hr.
  rewrite NilEmpty.usu. reflexivity.
Qed.

Lemma to_uint_not_nil : forall n, N.to_uint n <> Decimal.Nil.
Proof.
  intros n H. pose proof (DecimalN.Unsigned.of_to n) as E.
  rewrite H in E. simpl in E. subst n. discriminate H.
Qed.

Lemma parse_prim_num : forall n rest, nondigit_start rest = true ->
  parse_prim (stringify_prim (JNum n) ++ rest) = Some (JNum n, rest).
Proof.
  intros n rest Hr. simpl.
  rewrite <- (DecimalN.Unsigned.of_to n) at 2.
  rewrite <- (parse_number_uint (N.to_uint n) rest Hr).
  pose proof (to_uint_not_nil n) as Hn.
  destruct (N.to_uint n); [congruence| ..]; reflexivity.
Qed.

Lemma parse_prim_str : forall k rest,
  parse_prim (stringify_prim (JStr k) ++ rest) = Some (JStr k, rest).
Proof.
  intros k rest. change (stringify_prim (JStr k)) with (quote_string k).
  rewrite quote_string_app. unfold parse_prim. cbv iota.
  change (Ascii.eqb QUOTE QUOTE) with true. cbv iota.
  rewrite escape_string_parse. reflexivity.
Qed.

Lemma parse_prim_ok : forall v rest, nondigit_start rest = true ->
  parse_prim (stringify_prim v ++ rest) = Some (v, rest).
Proof.
  intros [k|n] rest Hr; [apply parse_prim_str | apply parse_prim_num; exact Hr].
Qed.

Lemma skip_ws_prim : forall v X, skip_ws (stringify_prim v ++ X) = stringify_prim v ++ X.
Proof.
  intros [k|n] X.
  - reflexivity.
  - simpl. pose proof (to_uint_not_nil n) as Hn.
    destruct (N.to_uint n); [congruence| ..]; reflexivity.
Qed.

Lemma stringify_more_cons : forall kv r,
  stringify_more (kv :: r) = String "," (stringify_member kv ++ stringify_more r).
Proof. reflexivity. Qed.

Lemma stringify_elems_more_cons : forall o r,
  stringify_elems_more (o :: r) = String "," (stringify_object o ++ stringify_elems_more r).
Proof. reflexivity. Qed.

Lemma skip_ws_nonws : forall c t, json_ws c = false -> skip_ws (String c t) = String c t.
Proof. intros c t H. simpl. rewrite H. reflexivity. Qed.

Lemma member_start : forall kv X, exists t, stringify_member kv ++ X = String QUOTE t.
Proof.
  intros [k v] X. eexists. reflexivity.
Qed.

Lemma parse_member_step : forall f k v X, nondigit_start X = true ->
  parse_members (S f) (stringify_member (k, v) ++ X) =
  match skip_ws X with
  | String sep r3 =>
    if Ascii.eqb sep "," then
      match parse_members f r3 with
      | Some (kvs, r4) => Some ((k, v) :: kvs, r4)
      | None => None
      end
    else if Ascii.eqb sep "}" then Some ([(k, v)], r3)
    else None
  | EmptyString => None
  end.
Proof.
  intros f k v X Hx. unfold stringify_member. cbn [fst snd].
  rewrite append_assoc, quote_string_app. cbn [append parse_members].
  rewrite skip_ws_nonws by reflexivity. cbv iota.
  change (Ascii.eqb QUOTE QUOTE) with true. cbv iota.
  rewrite escape_string_parse. cbv iota.
  rewrite skip_ws_nonws by reflexivity. cbv iota.
  change (Ascii.eqb ":" ":") with true. cbv iota.
  rewrite skip_ws_prim, parse_prim_ok by exact Hx. reflexivity.
Qed.

Lemma stringify_more_length : forall r X,
  List.length r <= String.length (stringify_more r ++ X).
Proof.
  induction r as [|kv r IH]; intros X; simpl; [lia|].
  rewrite append_assoc, append_length. specialize (IH X). lia.
Qed.

Lemma parse_members_ok : forall r kv Y fuel, List.length r < fuel ->
  parse_members fuel (stringify_member kv ++ stringify_more r ++ String "}" Y) =
  Some (kv :: r, Y).
Proof.
  induction r as [|kv' r IH]; intros [k v] Y fuel Hf;
    (destruct fuel as [|f]; [simpl in Hf; lia|]).
  - simpl stringify_more. rewrite parse_member_step by reflexivity. reflexivity.
  - rewrite stringify_more_cons, parse_member_step by reflexivity.
    change (String "," ?A ++ ?B) with (String "," (A ++ B)).
    rewrite skip_ws_nonws by reflexivity. cbv iota.
    change (Ascii.eqb "," ",") with true. cbv iota.
    rewrite append_assoc, IH by (simpl in Hf; lia). reflexivity.
Qed.

Lemma member_length : forall kv, 2 <= String.length (stringify_member kv).
Proof.
  intros [k v]. unfold stringify_member, quote_string. cbn [fst snd].
  rewrite append_length. cbn [String.length]. lia.
Qed.

Lemma object_length : forall o, 2 <= String.length (stringify_object o).
Proof.
  intros o. unfold stringify_object. cbn [String.length].
  rewrite append_length. cbn [String.length]. lia.
Qed.

Lemma parse_object_ok : forall o Y, o <> [] ->
  parse_object (stringify_object o ++ Y) = Some (o, Y).
Proof.
  intros [|kv r] Y Ho; [congruence|].
  unfold stringify_object.
  change (String "{" ?A ++ ?B) with (String "{" (A ++ B)).
  rewrite !append_assoc.
  change (String "}" EmptyString ++ ?B) with (String "}" B).
  unfold parse_object. rewrite skip_ws_nonws by reflexivity. cbv iota.
  change (Ascii.eqb "{" "{") with true. cbv iota.
  destruct (member_start kv (stringify_more r ++ String "}" Y)) as [t Ht].
  assert (L : String.length (stringify_member kv ++ stringify_more r ++ String "}" Y) =
              S (String.length t)) by (rewrite Ht; reflexivity).
  rewrite Ht. rewrite skip_ws_nonws by reflexivity. cbv iota.
  change (Ascii.eqb QUOTE "}") with false. cbv iota.
  rewrite <- Ht. apply parse_members_ok.
  rewrite append_length in L |- *. pose proof (member_length kv).
  pose proof (stringify_more_length r (String "}" Y)). lia.
Qed.

Lemma stringify_elems_more_length : forall os X,
  List.length os <= String.length (stringify_elems_more os ++ X).
Proof.
  induction os as [|o os IH]; intros X; simpl; [lia|].
  rewrite append_assoc, append_length. specialize (IH X). lia.
Qed.

Lemma object_start : forall o X, exists t, stringify_object o ++ X = String "{" t.
Proof. intros o X. eexists. reflexivity. Qed.

Lemma parse_elems_ok : forall os o Y fuel, List.length os < fuel ->
  Forall (fun o => o <> []) (o :: os) ->
  parse_elems fuel (stringify_object o ++ stringify_elems_more os ++ String "]" Y) =
  Some (o :: os, Y).
Proof.
  induction os as [|o' os IH]; intros o Y fuel Hf Hne;
    (destruct fuel as [|f]; [simpl in Hf; lia|]);
    inversion Hne as [|? ? Ho Hrest]; subst.
  - simpl stringify_elems_more. cbn [parse_elems].
    rewrite parse_object_ok by exact Ho. reflexivity.
  - rewrite stringify_elems_more_cons. cbn [parse_elems].
    rewrite parse_object_ok by exact Ho.
    change (String "," ?A ++ ?B) with (String "," (A ++ B)).
    rewrite skip_ws_nonws by reflexivity. cbv iota.
    change (Ascii.eqb "," ",") with true. cbv iota.
    rewrite append_assoc, IH by (simpl in Hf; lia || exact Hrest). reflexivity.
Qed.

Lemma JSON_parse_stringify : forall os, os <> [] -> Forall (fun o => o <> []) os ->
  JSON_parse (stringify_array os) = Some os.
Proof.
  intros [|o os] Hos Hne; [congruence|].
  unfold JSON_parse, parse_array, stringify_array.
  rewrite skip_ws_nonws by reflexivity. cbv iota.
  change (Ascii.eqb "[" "[") with true. cbv iota.
  rewrite append_assoc.
  destruct (object_start o (stringify_elems_more os ++ String "]" EmptyString)) as [t Ht].
  assert (L : String.length (stringify_object o ++ stringify_elems_more os ++ String "]" EmptyString) =
              S (String.length t)) by (rewrite Ht; reflexivity).
  rewrite Ht. rewrite skip_ws_nonws by reflexivity. cbv iota.
  change (Ascii.eqb "{" "]") with false. cbv iota.
  rewrite <- Ht. rewrite parse_elems_ok; [reflexivity| |exact Hne].
  rewrite append_length in L |- *. pose proof (object_length o).
  pose proof (stringify_elems_more_length os (String "]" EmptyString)).
  unfold JObject in *. lia.
Qed.

Lemma obj_to_metadata_json : forall m, obj_to_metadata (metadata_to_json m) = Some m.
Proof. intros [f fo d [n|]]; reflexivity. Qed.

Lemma decode_all_json : forall M, decode_all (map metadata_to_json M) = Some M.
Proof.
  induction M as [|m M IH]; [reflexivity|].
  simpl. rewrite obj_to_metadata_json, IH. reflexivity.
Qed.

Lemma metadata_to_json_nonempty : forall M, Forall (fun o => o <> []) (map metadata_to_json M).
Proof.
  induction M as [|m M IH]; constructor; [|exact IH].
  unfold metadata_to_json. discriminate.
Qed.

Lemma parse_metadata_stringify : forall M, M <> [] ->
  parse_metadata (stringify_metadata M) = Some M.
Proof.
  intros M HM. unfold parse_metadata, stringify_metadata.
  rewrite JSON_parse_stringify.
  - apply decode_all_json.
  - destruct M; [congruence | discriminate].
  - apply metadata_to_json_nonempty.
Qed.

End JSONFacts.

Import JSONFacts.

(** C8 (corrected). Every mutation that leaves at least one record writes
    the whole new mapping, and loading the file gives back exactly that
    mapping ([load(save(M)) = M] for every non-empty [M]). A mutation that
    leaves no record, such as deleting the last one, writes nothing: the
    state becomes empty but the file keeps the previous mapping. *)
Theorem C8_persist_roundtrip : forall f s,
  (forall M, M <> [] -> loadModelMetadata (Some (stringify_metadata M)) = M) /\
  (f (modelMetadata s) <> [] ->
     metadata_file (setModelMetadata f s) = Some (stringify_metadata (f (modelMetadata s))) /\
     loadModelMetadata (metadata_file (setModelMetadata f s)) =
       modelMetadata (setModelMetadata f s)) /\
  (f (modelMetadata s) = [] ->
     modelMetadata (setModelMetadata f s) = [] /\
     metadata_file (setModelMetadata f s) = metadata_file s).
Proof.
  intros f s. split; [|split].
  - intros M HM. simpl. rewrite parse_metadata_stringify by exact HM. reflexivity.
  - intros Hne. unfold setModelMetadata, saveModelMetadata. simpl.
    destruct (f (modelMetadata s)) as [|m ms] eqn:E; [congruence|].
    simpl. split; [reflexivity|].
    rewrite parse_metadata_stringify by discriminate. reflexivity.
  - intros He. unfold setModelMetadata, saveModelMetadata. simpl.
    rewrite He. simpl. split; reflexivity.
Qed.

Definition llama_record : ModelMetadata :=
  mkMeta "Llama-3.2-1B-Instruct-Q4_K_M.gguf" "Llama-3.2-1B-Instruct"
    "2025-01-02T00:00:00.000Z" None.

(** A file name with a quote and a tab, to go through the escapes. *)
Definition odd_record : ModelMetadata :=
  mkMeta (String QUOTE (String "009" "x.gguf")) "Unknown" "2025-01-03T00:00:00.000Z" (Some 0%N).

Definition two_models : Store :=
  setModelMetadata (fun _ => [qwen_record; odd_record; llama_record]) (mkStore [] None).

Lemma C8_witness :
  loadModelMetadata
    (metadata_file (setModelMetadata (deleteModel_update qwen_file) two_models)) =
  [odd_record; llama_record].
Proof.
  destruct (C8_persist_roundtrip (deleteModel_update qwen_file) two_models) as [_ [H _]].
  destruct H as [_ H]; [vm_compute; discriminate|].
  rewrite H. vm_compute. reflexivity.
Defined.

Definition one_model : Store :=
  setModelMetadata (fun _ => [qwen_record]) (mkStore [] None).

(** C8 counterexample: deleting the only record empties the state, but the
    file still holds it, so the next start loads [[qwen_record]], not [[]]. *)
Lemma C8_counterexample :
  modelMetadata (setModelMetadata (deleteModel_update qwen_file) one_model) = [] /\
  loadModelMetadata
    (metadata_file (setModelMetadata (deleteModel_update qwen_file) one_model)) =
  [qwen_record].
Proof. vm_compute. split; reflexivity. Qed.

(* ------------------------------------------------------------------ *)
(** ** [toggleThought] and the chat rendering (lines 161-168, 954-960) *)

Definition toggle_msg (m : Message) : Message :=
  mkMessage (role m) (content m) (thought m) (negb (showThought m)).

(** [arr.map((x, index) => f(index, x))], indices counted from [k]. *)
Fixpoint mapi_from {A B} (f : nat -> A -> B) (k : nat) (l : list A) : list B :=
  match l with
  | [] => []
  | x :: l' => f k x :: mapi_from f (S k) l'
  end.

(** [toggleThought]'s updater. An absent [showThought] is falsy, as
    [false] here. *)
Definition toggleThought (messageIndex : nat) (prev : list Message) : list Message :=
  mapi_from (fun index msg => if Nat.eqb index messageIndex then toggle_msg msg else msg)
            0 prev.

(** [conversation.slice(1)], the turns shown; the button of the shown turn
    [index] calls [toggleThought(index + 1)]. *)
Definition rendered (conv : list Message) : list Message := skipn 1 conv.

(* ------------------------------------------------------------------ *)
(** ** Sizes and lookups (lines 625-629, 682-695) *)

(** [String(n)] for an integer [n] below 10^21. *)
Definition js_number_string (n : N) : string := NilEmpty.string_of_uint (N.to_uint n).

(** [(b / d).toFixed(1)] for integers [b] and [d > 0] ([b / d] is exact
    in binary when [d] is a power of two and [b < 2^53]): [n] is the
    integer nearest to [10 * b / d], the larger one on a tie, and its
    decimal digits get a point before the last one, after padding to two
    digits. *)
Definition toFixed1 (b d : N) : string :=
  let n := ((20 * b + d) / (2 * d))%N in
  let m0 := js_number_string n in
  let m := if (String.length m0 <=? 1)%nat then ("0" ++ m0)%string else m0 in
  let k := String.length m in
  (substring 0 (k - 1) m ++ "." ++ substring (k - 1) 1 m)%string.

Definition formatFileSize (bytes : option N) : string :=
  match bytes with
  | None => "Unknown size"
  | Some b =>
    if (b <? 1024)%N then js_number_string b ++ " B"
    else if (b <? 1024 * 1024)%N then toFixed1 b 1024 ++ " KB"
    else if (b <? 1024 * 1024 * 1024)%N then toFixed1 b (1024 * 1024) ++ " MB"
    else toFixed1 b (1024 * 1024 * 1024) ++ " GB"
  end.

(** [modelMetadata.find(m => m.filename === filename)] *)
Definition find_meta (meta : list ModelMetadata) (fn : string) : option ModelMetadata :=
  find (fun m => String.eqb (filename m) fn) meta.

Definition getModelFormatInfo (meta : list ModelMetadata) (fn : string) : string :=
  match find_meta meta fn with
  | Some m => format m
  | None => "Unknown"
  end.

(** [formatFileSize(modelMeta?.size)] *)
Definition getModelSize (meta : list ModelMetadata) (fn : string) : string :=
  formatFileSize (match find_meta meta fn with
                  | Some m => size m
                  | None => None
                  end).

(* ------------------------------------------------------------------ *)
(** ** The model lists of the selection page (lines 747-940) *)

Definition modelFormats : list string :=
  ["Llama-3.2-1B-Instruct"; "Qwen2-0.5B-Instruct"; "DeepSeek-R1-Distill-Qwen-1.5B";
   "SmolLM2-1.7B-Instruct"].

(** [arr.includes(x)] on an array of strings. *)
Definition includes_str (l : list string) (x : string) : bool := existsb (String.eqb x) l.

(** [s.split(sep)] for a one-character separator. *)
Fixpoint js_split (sep : ascii) (s : string) : list string :=
  match s with
  | EmptyString => [EmptyString]
  | String c t =>
    if Ascii.eqb c sep then EmptyString :: js_split sep t
    else match js_split sep t with
         | [] => [String c EmptyString]
         | p :: ps => String c p :: ps
         end
  end.

(** [arr[i]] for a number [i]: a negative index names no element. *)
Definition js_index (l : list string) (i : Z) : option string :=
  if (i <? 0)%Z then None else nth_error l (Z.to_nat i).

(** [arr.pop()]: the last element, [undefined] on an empty array. *)
Definition js_pop (l : list string) : option string :=
  match rev l with
  | [] => None
  | x :: _ => Some x
  end.

(** [x == "imat"] where [x] may be [undefined]. *)
Definition loose_eq_str (o : option string) (s : string) : bool :=
  match o with
  | Some x => String.eqb x s
  | None => false
  end.

(** The label of a file in the format's list:
    [(file.split("-")[-1] == "imat" ? file : file.split("-").pop()).split(".")[0]]. *)
Definition gguf_label (file : string) : option string :=
  let base := if loose_eq_str (js_index (js_split "-" file) (-1)) "imat"
              then Some file else js_pop (js_split "-" file) in
  match base with
  | Some b => nth_error (js_split "." b) 0
  | None => None
  end.

(** The label in the "Downloaded Models" section:
    [model.filename.split("-").pop().split(".")[0]]. *)
Definition downloaded_label (file : string) : option string :=
  match js_pop (js_split "-" file) with
  | Some b => nth_error (js_split "." b) 0
  | None => None
  end.

(** The "Downloaded Models" section: one group per entry of
    [modelFormats] with the records of that format whose file is in
    [downloadedModels]; an empty group renders [null]. *)
Definition downloaded_groups (meta : list ModelMetadata) (downloaded : list string)
  : list (string * list ModelMetadata) :=
  filter (fun g => negb (Nat.eqb (length (snd g)) 0))
    (map (fun label => (label, filter (fun m => String.eqb (format m) label &&
                                              includes_str downloaded (filename m)) meta))
         modelFormats).

(** The count badge of a format button. *)
Definition format_badge (meta : list ModelMetadata) (label : string) : nat :=
  length (filter (fun m => String.eqb (format m) label) meta).

(** The list offered when the Hugging Face request of
    [handleFormatSelection] (or [fetchAvailableGGUFs]) fails. *)
Definition local_models_for (meta : list ModelMetadata) (fmt : string) : list string :=
  map filename (filter (fun m => String.eqb (format m) fmt) meta).

(* ------------------------------------------------------------------ *)
(** ** [downloadedModels] (lines 244, 395-400, 662) *)

(** The startup value: the [.gguf] names of the directory listing. *)
Definition startup_downloaded (dir : list DirEntry) : list string :=
  map entry_name (filter (fun e => ends_with (entry_name e) ".gguf") dir).

(** The updater after a completed download. *)
Definition add_downloaded (file : string) (prev : list string) : list string :=
  if negb (includes_str prev file) then (prev ++ [file])%list else prev.

(** The updater of [deleteModel]. *)
Definition remove_downloaded (file : string) (prev : list string) : list string :=
  filter (fun m => negb (String.eqb m file)) prev.

(* ------------------------------------------------------------------ *)
(** ** Facts about the remaining code *)

Module ExtraFacts.
Import JSStringFacts StreamFacts.
Local Open Scope list_scope.

Lemma toggle_msg_invol : forall m, toggle_msg (toggle_msg m) = m.
Proof. intros [r c t s]. unfold toggle_msg. simpl. rewrite negb_involutive. reflexivity. Qed.

Definition toggle_at (i : nat) : nat -> Message -> Message :=
  fun index msg => if Nat.eqb index i then toggle_msg msg else msg.

Lemma mapi_from_toggle_invol : forall l k i,
  mapi_from (toggle_at i) k (mapi_from (toggle_at i) k l) = l.
Proof.
  induction l as [|m l IH]; intros k i; [reflexivity|].
  simpl. rewrite IH. unfold toggle_at.
  destruct (Nat.eqb k i); [rewrite toggle_msg_invol|]; reflexivity.
Qed.

Lemma mapi_from_length {A B} : forall (f : nat -> A -> B) l k,
  length (mapi_from f k l) = length l.
Proof. induction l as [|x l IH]; intros k; simpl; [|rewrite IH]; reflexivity. Qed.

Lemma mapi_from_nth {A B} : forall (f : nat -> A -> B) l k j,
  nth_error (mapi_from f k l) j = option_map (f (k + j)) (nth_error l j).
Proof.
  induction l as [|x l IH]; intros k [|j]; simpl; try reflexivity.
  - rewrite Nat.add_0_r. reflexivity.
  - rewrite IH. replace (S k + j) with (k + S j) by lia. reflexivity.
Qed.

Lemma mapi_from_toggle_shift : forall l k i,
  mapi_from (toggle_at (S i)) (S k) l = mapi_from (toggle_at i) k l.
Proof.
  induction l as [|m l IH]; intros k i; [reflexivity|].
  simpl. rewrite IH. reflexivity.
Qed.

Lemma upsert_cons : forall r x l,
  upsert_record r (x :: l) =
  if String.eqb (filename x) (filename r) then r :: l else x :: upsert_record r l.
Proof.
  intros r x l. unfold upsert_record. simpl.
  destruct (String.eqb (filename x) (filename r)); [reflexivity|].
  destruct (find_index _ l); reflexivity.
Qed.

Lemma backfill_cons : forall file sz x l,
  backfill_size file sz (x :: l) =
  if String.eqb (filename x) file
  then (if size_missing (size x) then set_size sz x :: l else x :: l)
  else x :: backfill_size file sz l.
Proof.
  intros file sz x l. unfold backfill_size. simpl.
  destruct (String.eqb (filename x) file); simpl; [destruct (size_missing (size x)); reflexivity|].
  destruct (find_index _ l) as [i|]; simpl; [|reflexivity].
  destruct (nth_error l i) as [m|]; [|reflexivity].
  destruct (size_missing (size m)); reflexivity.
Qed.

Lemma eqb_sym_false : forall a b, String.eqb a b = false -> String.eqb b a = false.
Proof. intros a b H. rewrite String.eqb_sym. exact H. Qed.

Lemma includes_str_In : forall l x, includes_str l x = true <-> In x l.
Proof.
  intros l x. unfold includes_str. rewrite existsb_exists. split.
  - intros (y & Hy & E). apply String.eqb_eq in E. subst y. exact Hy.
  - intros H. exists x. split; [exact H | apply String.eqb_refl].
Qed.

Lemma NoDup_snoc {A} : forall (l : list A) x, NoDup l -> ~ In x l -> NoDup (l ++ [x]).
Proof.
  induction l as [|y l IH]; intros x Hl Hx; simpl; [constructor; [intros []|constructor]|].
  inversion Hl as [|? ? Hy Hl']; subst. constructor.
  - rewrite in_app_iff. intros [H|[H|[]]]; [exact (Hy H)|]. subst. apply Hx. left. reflexivity.
  - apply IH; [exact Hl'|]. intros H. apply Hx. right. exact H.
Qed.

Lemma NoDup_map_filter {A B} : forall (f : A -> B) p l,
  NoDup (map f l) -> NoDup (map f (filter p l)).
Proof.
  induction l as [|x l IH]; intros H; simpl; [constructor|].
  inversion H as [|? ? Hx Hl]; subst.
  destruct (p x); simpl; [|apply IH; exact Hl].
  constructor; [|apply IH; exact Hl].
  intros Hin. apply Hx. apply in_map_iff in Hin. destruct Hin as (y & Ey & Hy).
  apply filter_In in Hy. rewrite <- Ey. apply in_map. apply Hy.
Qed.

Lemma flat_map_snd_nonempty {A B} : forall (l : list (A * list B)),
  flat_map snd (filter (fun g => negb (Nat.eqb (length (snd g)) 0)) l) = flat_map snd l.
Proof.
  induction l as [|[a xs] l IH]; [reflexivity|].
  simpl. destruct xs; simpl; rewrite IH; reflexivity.
Qed.

(** One-character [includes]. *)
Lemma includes_char_nil : forall c, includes EmptyString (String c EmptyString) = false.
Proof. reflexivity. Qed.

Lemma includes_char_cons : forall c a s,
  includes (String a s) (String c EmptyString) =
  Ascii.eqb c a || includes s (String c EmptyString).
Proof. intros c a s. simpl. rewrite andb_true_r. reflexivity. Qed.

Lemma js_split_nonempty : forall sep s, js_split sep s <> [].
Proof.
  intros sep [|c t]; simpl; [discriminate|].
  destruct (Ascii.eqb c sep); [discriminate|]. destruct (js_split sep t); discriminate.
Qed.

Lemma js_split_no_sep : forall sep s p,
  In p (js_split sep s) -> includes p (String sep EmptyString) = false.
Proof.
  intros sep. induction s as [|c t IH]; intros p Hp; simpl in Hp.
  - destruct Hp as [<-|[]]. reflexivity.
  - destruct (Ascii.eqb c sep) eqn:E.
    + destruct Hp as [<-|Hp]; [reflexivity | apply IH; exact Hp].
    + assert (Ec : Ascii.eqb sep c = false) by (rewrite Ascii.eqb_sym; exact E).
      destruct (js_split sep t) as [|q qs] eqn:Es.
      * destruct Hp as [<-|[]]. rewrite includes_char_cons, Ec. reflexivity.
      * destruct Hp as [<-|Hp].
        -- rewrite includes_char_cons, Ec, IH; [reflexivity|left; reflexivity].
        -- apply IH. right. exact Hp.
Qed.

Lemma js_split_keeps_absent : forall sep d s p,
  includes s (String d EmptyString) = false ->
  In p (js_split sep s) -> includes p (String d EmptyString) = false.
Proof.
  intros sep d. induction s as [|c t IH]; intros p Hs Hp; simpl in Hp.
  - destruct Hp as [<-|[]]. reflexivity.
  - rewrite includes_char_cons in Hs. apply orb_false_iff in Hs. destruct Hs as [Hc Ht].
    destruct (Ascii.eqb c sep).
    + destruct Hp as [<-|Hp]; [reflexivity | apply IH; assumption].
    + destruct (js_split sep t) as [|q qs] eqn:Es.
      * destruct Hp as [<-|[]]. rewrite includes_char_cons, Hc. reflexivity.
      * destruct Hp as [<-|Hp].
        -- rewrite includes_char_cons, Hc, (IH q Ht); [reflexivity|left; reflexivity].
        -- apply IH; [exact Ht | right; exact Hp].
Qed.

Lemma js_pop_some : forall l, l <> [] -> exists x, js_pop l = Some x /\ In x l.
Proof.
  intros l Hl. unfold js_pop. destruct (rev l) as [|x r] eqn:E.
  - apply (f_equal (@rev string)) in E. rewrite rev_involutive in E. simpl in E. congruence.
  - exists x. split; [reflexivity|]. apply in_rev. rewrite E. left. reflexivity.
Qed.

Lemma filter_none' {A} : forall (l : list A), filter (fun _ => true) l = l.
Proof. induction l as [|x l IH]; [reflexivity|]. simpl. rewrite IH. reflexivity. Qed.

Lemma count_filename_cons : forall f x l,
  count_filename f (x :: l) =
  (if String.eqb (filename x) f then 1 else 0) + count_filename f l.
Proof. intros f x l. unfold count_filename. simpl. destruct (String.eqb (filename x) f); reflexivity. Qed.

End ExtraFacts.

Import ExtraFacts.

(** X1. Calling [toggleThought] twice with the same index gives back the
    conversation it started from. *)
Theorem X1_toggleThought_involutive : forall i conv,
  toggleThought i (toggleThought i conv) = conv.
Proof. intros i conv. apply mapi_from_toggle_invol. Qed.

(** X2. [toggleThought i] keeps the number of turns and changes only turn
    [i], by negating its [showThought]; every other turn, and every turn
    when [i] is out of range, is unchanged. *)
Theorem X2_toggleThought_local : forall i conv,
  length (toggleThought i conv) = length conv /\
  (forall j, nth_error (toggleThought i conv) j =
             option_map (fun m => if Nat.eqb j i then toggle_msg m else m) (nth_error conv j)) /\
  (length conv <= i -> toggleThought i conv = conv).
Proof.
  intros i conv. split; [apply mapi_from_length|]. split.
  - intros j. unfold toggleThought. rewrite mapi_from_nth. reflexivity.
  - intros Hi. apply nth_error_ext. intros j. unfold toggleThought.
    rewrite mapi_from_nth. simpl.
    destruct (nth_error conv j) eqn:E; [|reflexivity]. simpl.
    destruct (Nat.eqb j i) eqn:Eji; [|reflexivity].
    apply Nat.eqb_eq in Eji. subst j.
    assert (nth_error conv i = None) by (apply nth_error_None; exact Hi). congruence.
Qed.

(** X3. The thought button of the shown turn [index] (the shown turns are
    [conversation.slice(1)]) calls [toggleThought(index + 1)]: on the
    shown turns this is exactly a toggle of shown turn [index]. *)
Theorem X3_rendered_toggle : forall index conv,
  rendered (toggleThought (index + 1) conv) = toggleThought index (rendered conv).
Proof.
  intros index [|m conv]; [reflexivity|].
  unfold rendered, toggleThought. simpl. rewrite Nat.add_1_r.
  apply mapi_from_toggle_shift.
Qed.

(** X4. After the download updater stores record [r], looking its file up
    ([modelMetadata.find], as in [getModelSize] and [getModelFormatInfo])
    gives [r], so the page shows [r]'s size and format; lookups of any other
    file name are unchanged. *)
Theorem X4_upsert_lookup : forall r prev,
  find_meta (upsert_record r prev) (filename r) = Some r /\
  getModelSize (upsert_record r prev) (filename r) = formatFileSize (size r) /\
  getModelFormatInfo (upsert_record r prev) (filename r) = format r /\
  (forall fn, fn <> filename r ->
     find_meta (upsert_record r prev) fn = find_meta prev fn).
Proof.
  intros r prev.
  assert (H1 : find_meta (upsert_record r prev) (filename r) = Some r).
  { induction prev as [|x l IH].
    - unfold find_meta, upsert_record. simpl. rewrite String.eqb_refl. reflexivity.
    - rewrite upsert_cons. destruct (String.eqb (filename x) (filename r)) eqn:E.
      + unfold find_meta. simpl. rewrite String.eqb_refl. reflexivity.
      + unfold find_meta in *. simpl. rewrite E. exact IH. }
  split; [exact H1|]. split; [unfold getModelSize; rewrite H1; reflexivity|].
  split; [unfold getModelFormatInfo; rewrite H1; reflexivity|].
  intros fn Hfn. apply String.eqb_neq in Hfn. clear H1.
  induction prev as [|x l IH].
  - unfold find_meta, upsert_record. simpl. rewrite (eqb_sym_false _ _ Hfn). reflexivity.
  - rewrite upsert_cons. destruct (String.eqb (filename x) (filename r)) eqn:E.
    + apply String.eqb_eq in E. unfold find_meta. simpl.
      rewrite (eqb_sym_false _ _ Hfn), E, (eqb_sym_false _ _ Hfn). reflexivity.
    + unfold find_meta in *. simpl. destruct (String.eqb (filename x) fn); [reflexivity|].
      exact IH.
Qed.

(** X5. The download updater never duplicates a record: the number of
    records for [r]'s file becomes [max 1 n] where [n] is the number before,
    and the count of every other file name is unchanged. *)
Theorem X5_upsert_counts : forall r prev,
  count_filename (filename r) (upsert_record r prev) =
    Nat.max 1 (count_filename (filename r) prev) /\
  (forall fn, fn <> filename r ->
     count_filename fn (upsert_record r prev) = count_filename fn prev).
Proof.
  intros r prev. split.
  - induction prev as [|x l IH].
    + unfold upsert_record, count_filename. simpl. rewrite String.eqb_refl. reflexivity.
    + rewrite upsert_cons. destruct (String.eqb (filename x) (filename r)) eqn:E.
      * rewrite !count_filename_cons, E, String.eqb_refl. lia.
      * rewrite !count_filename_cons, E, IH. reflexivity.
  - intros fn Hfn. apply String.eqb_neq in Hfn.
    induction prev as [|x l IH].
    + unfold upsert_record, count_filename. simpl. rewrite (eqb_sym_false _ _ Hfn). reflexivity.
    + rewrite upsert_cons. destruct (String.eqb (filename x) (filename r)) eqn:E.
      * apply String.eqb_eq in E. rewrite !count_filename_cons, E, (eqb_sym_false _ _ Hfn).
        reflexivity.
      * rewrite !count_filename_cons, IH. reflexivity.
Qed.

(** X6. The size backfill of the existing-file branch of
    [handleDownloadModel] touches only the first record of the file, and
    sets its size only when it is missing (undefined or 0): a lookup of the
    file then sees the new size exactly in that case, lookups of other files
    are unchanged, and every record keeps its file name. Position by
    position, the mapping keeps its length and every record other than the
    first one of the file, later records of the same file included, stays
    as it was. *)
Theorem X6_backfill_lookup : forall file sz prev,
  find_meta (backfill_size file sz prev) file =
    option_map (fun m => if size_missing (size m) then set_size sz m else m)
               (find_meta prev file) /\
  (forall fn, fn <> file -> find_meta (backfill_size file sz prev) fn = find_meta prev fn) /\
  map filename (backfill_size file sz prev) = map filename prev /\
  length (backfill_size file sz prev) = length prev /\
  (forall j, find_index (fun m => String.eqb (filename m) file) prev <> Some j ->
     nth_error (backfill_size file sz prev) j = nth_error prev j) /\
  (forall i, find_index (fun m => String.eqb (filename m) file) prev = Some i ->
     nth_error (backfill_size file sz prev) i =
       option_map (fun m => if size_missing (size m) then set_size sz m else m)
                  (nth_error prev i)).
Proof.
  intros file sz prev.
  assert (Names : map filename (backfill_size file sz prev) = map filename prev).
  { induction prev as [|x l IH]; [reflexivity|].
    rewrite backfill_cons. destruct (String.eqb (filename x) file);
      [destruct (size_missing (size x)); reflexivity|].
    simpl. rewrite IH. reflexivity. }
  split; [|split; [|split; [exact Names|split; [|split]]]].
  - clear Names. induction prev as [|x l IH]; [reflexivity|].
    rewrite backfill_cons. unfold find_meta in *. simpl.
    destruct (String.eqb (filename x) file) eqn:E.
    + simpl. destruct (size_missing (size x)); simpl; rewrite ?E; reflexivity.
    + simpl. rewrite E. exact IH.
  - intros fn Hfn. apply String.eqb_neq in Hfn. clear Names.
    induction prev as [|x l IH]; [reflexivity|].
    rewrite backfill_cons. unfold find_meta in *.
    destruct (String.eqb (filename x) file) eqn:E.
    + apply String.eqb_eq in E.
      destruct (size_missing (size x)); simpl; [unfold set_size; simpl|]; rewrite E;
        rewrite (eqb_sym_false _ _ Hfn); reflexivity.
    + simpl. destruct (String.eqb (filename x) fn); [reflexivity | exact IH].
  - rewrite <- (length_map filename), Names, length_map. reflexivity.
  - clear Names. induction prev as [|x l IH]; intros j Hj; [reflexivity|].
    rewrite backfill_cons. cbn [find_index] in Hj.
    destruct (String.eqb (filename x) file).
    + destruct j as [|j]; [congruence|].
      destruct (size_missing (size x)); reflexivity.
    + destruct j as [|j]; [reflexivity|]. cbn [nth_error]. apply IH.
      intros E. apply Hj. rewrite E. reflexivity.
  - clear Names. induction prev as [|x l IH]; intros i Hi; [discriminate|].
    rewrite backfill_cons. cbn [find_index] in Hi.
    destruct (String.eqb (filename x) file).
    + injection Hi as <-. cbn [nth_error option_map].
      destruct (size_missing (size x)); reflexivity.
    + destruct (find_index _ l) as [i'|] eqn:Ei; [|discriminate].
      injection Hi as <-. cbn [nth_error]. apply IH. reflexivity.
Qed.

(** X7. The metadata updater of [loadModel] changes formats only: every
    record keeps its file name, date and size, and records of other files
    are untouched. When the record the closure finds has format "Unknown"
    and a format is selected, every record of that file, whatever its
    format, gets the selected one. *)
Theorem X7_load_meta_update_formats_only : forall snapshot name sel prev,
  map (fun m => (filename m, downloadDate m, size m)) (load_meta_update snapshot name sel prev) =
    map (fun m => (filename m, downloadDate m, size m)) prev /\
  (forall i m, nth_error prev i = Some m -> filename m <> name ->
     nth_error (load_meta_update snapshot name sel prev) i = Some m) /\
  (forall mm, find_meta snapshot name = Some mm -> format mm = "Unknown" -> sel <> "" ->
     forall m, In m (load_meta_update snapshot name sel prev) -> filename m = name ->
     format m = sel).
Proof.
  intros snapshot name sel prev. unfold load_meta_update.
  split; [|split].
  - destruct (find _ snapshot) as [mm|]; [|reflexivity].
    destruct (String.eqb (format mm) "Unknown"); [|reflexivity].
    rewrite map_map. apply map_ext. intros m.
    destruct (String.eqb (filename m) name); reflexivity.
  - intros i m Hi Hn. apply String.eqb_neq in Hn.
    destruct (find _ snapshot) as [mm|]; [|exact Hi].
    destruct (String.eqb (format mm) "Unknown"); [|exact Hi].
    rewrite nth_error_map, Hi. simpl. rewrite Hn. reflexivity.
  - intros mm Hf Hu Hs m Hm Hn. unfold find_meta in Hf. rewrite Hf in Hm.
    rewrite Hu in Hm. simpl in Hm. apply in_map_iff in Hm. destruct Hm as (x & <- & _).
    apply String.eqb_neq in Hs.
    destruct (String.eqb (filename x) name) eqn:E; simpl in Hn |- *.
    + rewrite Hs. reflexivity.
    + rewrite Hn, String.eqb_refl in E. discriminate.
Qed.

(** X8. The [deleteModel] updater removes every record of the file and
    keeps the records of every other file, in order; afterwards the page
    shows "Unknown size" and format "Unknown" for the deleted file. *)
Theorem X8_delete_removes_file : forall fn prev,
  count_filename fn (deleteModel_update fn prev) = 0 /\
  (forall g, g <> fn ->
     filter (fun m => String.eqb (filename m) g) (deleteModel_update fn prev) =
     filter (fun m => String.eqb (filename m) g) prev) /\
  getModelSize (deleteModel_update fn prev) fn = "Unknown size" /\
  getModelFormatInfo (deleteModel_update fn prev) fn = "Unknown".
Proof.
  intros fn prev.
  assert (Hf : find_meta (deleteModel_update fn prev) fn = None).
  { induction prev as [|x l IH]; [reflexivity|].
    unfold deleteModel_update, find_meta in *. simpl.
    destruct (String.eqb (filename x) fn) eqn:E; simpl; [exact IH|].
    rewrite E. exact IH. }
  split; [|split; [|split]].
  - clear Hf. induction prev as [|x l IH]; [reflexivity|].
    unfold deleteModel_update, count_filename in *. simpl.
    destruct (String.eqb (filename x) fn) eqn:E; simpl; [exact IH|].
    rewrite E. exact IH.
  - intros g Hg. clear Hf. induction prev as [|x l IH]; [reflexivity|].
    unfold deleteModel_update in *. simpl.
    destruct (String.eqb (filename x) fn) eqn:E; simpl.
    + apply String.eqb_eq in E. rewrite IH.
      assert (Eg : String.eqb (filename x) g = false)
        by (apply String.eqb_neq; rewrite E; intros H; apply Hg; symmetry; exact H).
      rewrite Eg. reflexivity.
    + destruct (String.eqb (filename x) g); rewrite IH; reflexivity.
  - unfold getModelSize. rewrite Hf. reflexivity.
  - unfold getModelFormatInfo. rewrite Hf. reflexivity.
Qed.

(** X9. [downloadedModels] stays free of duplicates: the startup value is
    when the directory names are, and the download and delete updaters keep
    it so; after a download the file is listed, after a delete it is not,
    and a delete keeps every other name. *)
Theorem X9_downloaded_models_nodup : forall dir file prev,
  (NoDup (map entry_name dir) -> NoDup (startup_downloaded dir)) /\
  (NoDup prev -> NoDup (add_downloaded file prev)) /\
  In file (add_downloaded file prev) /\
  (NoDup prev -> NoDup (remove_downloaded file prev)) /\
  (forall x, In x (remove_downloaded file prev) <-> In x prev /\ x <> file).
Proof.
  intros dir file prev. split; [|split; [|split; [|split]]].
  - apply NoDup_map_filter.
  - intros H. unfold add_downloaded.
    destruct (includes_str prev file) eqn:E; simpl; [exact H|].
    apply NoDup_snoc; [exact H|]. intros Hin. apply includes_str_In in Hin. congruence.
  - unfold add_downloaded. destruct (includes_str prev file) eqn:E; simpl.
    + apply includes_str_In. exact E.
    + apply in_or_app. right. left. reflexivity.
  - intros H. apply NoDup_filter. exact H.
  - intros x. unfold remove_downloaded. rewrite filter_In. split.
    + intros [Hx E]. split; [exact Hx|]. intros ->. rewrite String.eqb_refl in E. discriminate.
    + intros [Hx Hne]. split; [exact Hx|]. apply String.eqb_neq in Hne. rewrite Hne. reflexivity.
Qed.

(** X10. A startup reconciliation (whose closure sees the empty initial
    mapping) keeps every loaded record, in order, and adds one record per
    [.gguf] entry of the directory, whatever the mapping already holds: the
    number of records of a [.gguf] file name grows by the number of
    directory entries of that name, and every other name keeps its count. *)
Theorem X10_startup_adds_one_record_per_file : forall loaded dir now,
  (exists added, startup_reconcile loaded dir now = (loaded ++ added)%list) /\
  (forall f, ends_with f ".gguf" = true ->
     count_filename f (startup_reconcile loaded dir now) =
       count_filename f loaded + length (filter (fun e => String.eqb (entry_name e) f) dir)) /\
  (forall f, ends_with f ".gguf" = false ->
     count_filename f (startup_reconcile loaded dir now) = count_filename f loaded).
Proof.
  intros loaded dir now.
  set (g := filter (fun e => ends_with (entry_name e) ".gguf") dir).
  assert (E : startup_reconcile loaded dir now = (loaded ++ map (synth_record now) g)%list).
  { unfold startup_reconcile, checkDownloadedModels, mount_snapshot. cbn [map existsb negb].
    fold g. rewrite (filter_none' g).
    destruct g; [rewrite app_nil_r|]; reflexivity. }
  assert (C : forall f, count_filename f (startup_reconcile loaded dir now) =
                        count_filename f loaded +
                        length (filter (fun e => String.eqb (entry_name e) f) g)).
  { intros f. rewrite E. unfold count_filename. rewrite filter_app, length_app.
    f_equal. clear E. induction g as [|e g' IH]; [reflexivity|].
    simpl. destruct (String.eqb (entry_name e) f); simpl; rewrite IH; reflexivity. }
  split; [exists (map (synth_record now) g); exact E|]. split.
  - intros f Hf. rewrite C. f_equal. f_equal. unfold g. clear E C g.
    induction dir as [|e d IH]; [reflexivity|]. simpl.
    destruct (String.eqb (entry_name e) f) eqn:Ee.
    + assert (Hg : ends_with (entry_name e) ".gguf" = true)
        by (apply String.eqb_eq in Ee; rewrite Ee; exact Hf).
      rewrite Hg. simpl. rewrite Ee, IH. reflexivity.
    + destruct (ends_with (entry_name e) ".gguf"); simpl; rewrite ?Ee; exact IH.
  - intros f Hf. rewrite C. rewrite <- (Nat.add_0_r (count_filename f loaded)) at 2.
    f_equal. unfold g. clear E C g.
    induction dir as [|e d IH]; [reflexivity|]. simpl.
    destruct (String.eqb (entry_name e) f) eqn:Ee.
    + assert (Hg : ends_with (entry_name e) ".gguf" = false)
        by (apply String.eqb_eq in Ee; rewrite Ee; exact Hf).
      rewrite Hg. exact IH.
    + destruct (ends_with (entry_name e) ".gguf"); simpl; rewrite ?Ee; exact IH.
Qed.

(** X11. Sizes from 1048525 to 1048575 bytes are shown as "1024.0 KB"
    ([toFixed(1)] rounds up to 1024.0 just below the MB threshold), and
    sizes from 1073689396 to 1073741823 bytes as "1024.0 MB". *)
Theorem X11_formatFileSize_rounds_to_1024 : forall b,
  ((1048525 <= b < 1048576)%N -> formatFileSize (Some b) = "1024.0 KB") /\
  ((1073689396 <= b < 1073741824)%N -> formatFileSize (Some b) = "1024.0 MB").
Proof.
  intros b. split; intros Hb; unfold formatFileSize.
  - destruct (N.ltb_spec b 1024); [lia|].
    destruct (N.ltb_spec b (1024 * 1024)); [|lia].
    unfold toFixed1.
    assert (E : ((20 * b + 1024) / (2 * 1024) = 10240)%N).
    { symmetry. apply (N.div_unique _ _ _ (20 * b + 1024 - 2 * 1024 * 10240)); lia. }
    rewrite E. reflexivity.
  - destruct (N.ltb_spec b 1024); [lia|].
    destruct (N.ltb_spec b (1024 * 1024)); [lia|].
    destruct (N.ltb_spec b (1024 * 1024 * 1024)); [|lia].
    unfold toFixed1.
    assert (E : ((20 * b + 1024 * 1024) / (2 * (1024 * 1024)) = 10240)%N).
    { symmetry. apply (N.div_unique _ _ _ (20 * b + 1024 * 1024 - 2 * (1024 * 1024) * 10240)); lia. }
    rewrite E. reflexivity.
Qed.

(** X12. The "imat" test of the format list's label never holds
    ([file.split("-")[-1]] is undefined: arrays have no negative index), so
    both lists label a file the same way, and the label always exists and
    contains neither "-" nor ".". *)
Theorem X12_gguf_label : forall file,
  gguf_label file = downloaded_label file /\
  exists l, gguf_label file = Some l /\
            includes l "-" = false /\ includes l "." = false.
Proof.
  intros file. split; [reflexivity|].
  unfold gguf_label. cbn [js_index Z.ltb Z.compare loose_eq_str].
  destruct (js_pop_some (js_split "-" file) (js_split_nonempty "-" file)) as (b & Eb & Hb).
  rewrite Eb.
  destruct (js_split "." b) as [|l ls] eqn:Es; [destruct (js_split_nonempty "." b Es)|].
  exists l. split; [reflexivity|]. split.
  - apply (js_split_keeps_absent "." "-" b); [apply (js_split_no_sep "-" file); exact Hb|].
    rewrite Es. left. reflexivity.
  - apply (js_split_no_sep "." b). rewrite Es. left. reflexivity.
Qed.

(** X13. The "Downloaded Models" section shows a record exactly when its
    format is one of the four format labels and its file is in
    [downloadedModels]: a record with format "Unknown" is listed in no
    group. *)
Theorem X13_downloaded_groups_members : forall meta downloaded m,
  In m (flat_map snd (downloaded_groups meta downloaded)) <->
  In m meta /\ In (format m) modelFormats /\ In (filename m) downloaded.
Proof.
  intros meta downloaded m. unfold downloaded_groups.
  rewrite flat_map_snd_nonempty, in_flat_map. split.
  - intros (g & Hg & Hm). apply in_map_iff in Hg. destruct Hg as (label & <- & Hl).
    simpl in Hm. apply filter_In in Hm. destruct Hm as [Hm Hc].
    apply andb_true_iff in Hc. destruct Hc as [Hf Hd].
    apply String.eqb_eq in Hf. apply includes_str_In in Hd.
    split; [exact Hm|]. split; [rewrite Hf; exact Hl | exact Hd].
  - intros (Hm & Hf & Hd). exists (format m, filter (fun x => String.eqb (format x) (format m) &&
                                                includes_str downloaded (filename x)) meta).
    split; [apply in_map_iff; exists (format m); split; [reflexivity | exact Hf]|].
    simpl. apply filter_In. split; [exact Hm|].
    rewrite String.eqb_refl. simpl. apply includes_str_In. exact Hd.
Qed.

(** X14. Without a loaded engine ([context] unset, e.g. after a failed
    load) sending changes nothing: the call alerts "Model Not Loaded" and
    returns. Whitespace-only input changes nothing either. With an engine,
    non-blank input appends exactly two turns: a user turn holding the
    input as typed (not trimmed) and an assistant turn; a throughput sample
    is added only when the completion returns. *)
Theorem X14_send_appends_two_turns : forall has_context input tokens outcome s,
  handleSendMessage false input tokens outcome s = s /\
  (trim input = "" -> handleSendMessage has_context input tokens outcome s = s) /\
  (trim input <> "" ->
   exists m,
     conversation (handleSendMessage true input tokens outcome s) =
       (conversation s ++ [mkMessage RUser input None false; m])%list /\
     role m = RAssistant /\
     tokensPerSecond (handleSendMessage true input tokens outcome s) =
       (tokensPerSecond s ++ match outcome with Returned t => [t] | Threw => [] end)%list).
Proof.
  intros has_context input tokens outcome s. unfold handleSendMessage.
  split; [reflexivity|]. split.
  - intros H. rewrite H. destruct has_context; reflexivity.
  - intros H. apply String.eqb_neq in H. cbn [negb]. rewrite H.
    destruct (complete_shape (conversation s) input tokens)
      as (l' & m' & E & _ & _ & _ & Hr & _).
    exists m'. simpl. rewrite E. split; [reflexivity|]. split; [exact Hr|].
    destruct outcome; [reflexivity | rewrite app_nil_r; reflexivity].
Qed.

(** X15. The visible reply depends only on the text streamed, not on how
    it is cut into tokens: after a non-empty token list the assistant turn
    holds the trimmed concatenation with the [<think>...</think>] spans
    removed, so two token lists with the same concatenation give the same
    visible reply. *)
Theorem X15_visible_independent_of_chunking : forall conv input ts us,
  ts <> [] ->
  option_map content (last_turn (snd (complete conv input ts))) =
    Some (trim (strip_think (concat_all ts))) /\
  (us <> [] -> concat_all ts = concat_all us ->
   option_map content (last_turn (snd (complete conv input ts))) =
   option_map content (last_turn (snd (complete conv input us)))).
Proof.
  intros conv input ts us Hts.
  assert (K : forall vs, vs <> [] ->
            option_map content (last_turn (snd (complete conv input vs))) =
            Some (trim (strip_think (concat_all vs)))).
  { intros vs Hvs. destruct (complete_shape conv input vs) as (l' & m' & E & _ & Hv & _).
    rewrite E.
    replace (conv ++ [mkMessage RUser input None false; m'])%list
      with ((conv ++ [mkMessage RUser input None false]) ++ [m'])%list
      by (rewrite <- app_assoc; reflexivity).
    rewrite last_turn_app. simpl. rewrite Hv by exact Hvs. reflexivity. }
  split; [exact (K ts Hts)|].
  intros Hus Ec. rewrite (K ts Hts), (K us Hus), Ec. reflexivity.
Qed.

(** Witnesses. *)

Lemma X11_witness :
  formatFileSize (Some 1048575%N) = "1024.0 KB" /\
  formatFileSize (Some 1073741823%N) = "1024.0 MB".
Proof.
  split.
  - apply (proj1 (X11_formatFileSize_rounds_to_1024 1048575%N)). lia.
  - apply (proj2 (X11_formatFileSize_rounds_to_1024 1073741823%N)). lia.
Defined.

Lemma X15_witness :
  option_map content (last_turn (snd (complete INITIAL_CONVERSATION "hi" ["a<thi"; "nk>b</think> c"]))) =
  option_map content (last_turn (snd (complete INITIAL_CONVERSATION "hi" ["a<think>b</think> c"]))).
Proof.
  apply (proj2 (X15_visible_independent_of_chunking INITIAL_CONVERSATION "hi"
                  ["a<thi"; "nk>b</think> c"] ["a<think>b</think> c"] ltac:(discriminate)));
    [discriminate | reflexivity].
Defined.

Lemma X2_witness : toggleThought 5 INITIAL_CONVERSATION = INITIAL_CONVERSATION.
Proof. apply (proj2 (proj2 (X2_toggleThought_local 5 INITIAL_CONVERSATION))). simpl. lia. Defined.

Lemma X4_witness :
  find_meta (upsert_record qwen_record [llama_record]) (filename llama_record) =
  find_meta [llama_record] (filename llama_record).
Proof.
  apply (proj2 (proj2 (proj2 (X4_upsert_lookup qwen_record [llama_record])))).
  vm_compute. discriminate.
Defined.

Lemma X5_witness :
  count_filename (filename llama_record) (upsert_record qwen_record [llama_record]) =
  count_filename (filename llama_record) [llama_record].
Proof.
  apply (proj2 (X5_upsert_counts qwen_record [llama_record])).
  vm_compute. discriminate.
Defined.

Lemma X6_witness :
  find_meta (backfill_size qwen_file 7%N [qwen_unsized; llama_record]) (filename llama_record) =
  find_meta [qwen_unsized; llama_record] (filename llama_record) /\
  nth_error (backfill_size qwen_file 7%N [qwen_unsized; qwen_unsized]) 1 = Some qwen_unsized.
Proof.
  split.
  - apply (proj1 (proj2 (X6_backfill_lookup qwen_file 7%N [qwen_unsized; llama_record]))).
    vm_compute. discriminate.
  - apply (proj1 (proj2 (proj2 (proj2 (proj2
             (X6_backfill_lookup qwen_file 7%N [qwen_unsized; qwen_unsized])))))).
    vm_compute. discriminate.
Defined.

Definition qwen_unknown : ModelMetadata :=
  mkMeta qwen_file "Unknown" "2025-01-01T00:00:00.000Z" None.

Lemma X7_witness :
  format (set_format "Qwen2-0.5B-Instruct" qwen_unknown) = "Qwen2-0.5B-Instruct".
Proof.
  apply (proj2 (proj2 (X7_load_meta_update_formats_only [qwen_unknown] qwen_file
                         "Qwen2-0.5B-Instruct" [qwen_unknown])) qwen_unknown).
  - reflexivity.
  - reflexivity.
  - discriminate.
  - vm_compute. left. reflexivity.
  - reflexivity.
Defined.

Lemma X8_witness :
  filter (fun m => String.eqb (filename m) (filename llama_record))
    (deleteModel_update qwen_file [qwen_record; llama_record]) =
  filter (fun m => String.eqb (filename m) (filename llama_record)) [qwen_record; llama_record].
Proof.
  apply (proj1 (proj2 (X8_delete_removes_file qwen_file [qwen_record; llama_record]))).
  vm_compute. discriminate.
Defined.

Lemma X9_witness : NoDup (add_downloaded "b.gguf" ["a.gguf"]).
Proof.
  apply (proj1 (proj2 (X9_downloaded_models_nodup [] "b.gguf" ["a.gguf"]))).
  constructor; [intros []|constructor].
Defined.

Lemma X14_witness :
  handleSendMessage false "hi" ["a"] Threw initial_chat = initial_chat /\
  exists m,
    conversation (handleSendMessage true "hi" ["a"] Threw initial_chat) =
      (conversation initial_chat ++ [mkMessage RUser "hi" None false; m])%list /\
    role m = RAssistant /\
    tokensPerSecond (handleSendMessage true "hi" ["a"] Threw initial_chat) =
      (tokensPerSecond initial_chat ++ [])%list.
Proof.
  destruct (X14_send_appends_two_turns true "hi" ["a"] Threw initial_chat) as [H1 [_ H3]].
  split; [exact H1|].
  apply H3. vm_compute. discriminate.
Defined.

Lemma X10_witness :
  count_filename "b.gguf"
    (startup_reconcile [synth_record "t0" (mkEntry "b.gguf" None)]
                       [mkEntry "a.gguf" (Some 1%N); mkEntry "b.gguf" (Some 2%N)] "t1") = 2 /\
  count_filename "notes.txt"
    (startup_reconcile [] [mkEntry "notes.txt" (Some 3%N)] "t1") = 0.
Proof.
  split.
  - rewrite (proj1 (proj2 (X10_startup_adds_one_record_per_file
                             [synth_record "t0" (mkEntry "b.gguf" None)]
                             [mkEntry "a.gguf" (Some 1%N); mkEntry "b.gguf" (Some 2%N)] "t1"))
                   "b.gguf" eq_refl).
    reflexivity.
  - rewrite (proj2 (proj2 (X10_startup_adds_one_record_per_file
                             [] [mkEntry "notes.txt" (Some 3%N)] "t1"))
                   "notes.txt" eq_refl).
    reflexivity.
Defined.
